(** * GrepSearch: the search-result pipeline of [grep_search.py]

    A shallow embedding of the parts of the Sublime Text plugin that parse,
    filter and render the output of an external grep-like engine:

    - [search] (the generator that runs the engine and parses its output),
    - [search_for_haskell_defns] (the Haskell definition search),
    - [remove_similar_matches] (the adjacent-match filter),
    - [render_matches] (the grouped textual report).

    Python text is modelled by [string], read as a sequence of code points
    below 256, with Python's character classes on that range.  Python
    integers are [Z].  A generator is modelled by the result of consuming it
    fully, as every caller in the plugin does ([list(...)] and
    [list.extend]). *)

From Stdlib Require Import ZArith Lia List Ascii String.
From Stdlib Require Import Decimal DecimalString DecimalPos DecimalZ.
From stdpp Require Import base option list gmap strings.

Local Open Scope Z_scope.
Local Open Scope string_scope.
Local Open Scope list_scope.

(** ** Python string primitives *)

Module Py.

(** A character is a code point below 256 and a [string] is the Python
    [str] with those code points; the character classes are CPython's on
    that range. *)
Definition code (c : ascii) : nat := nat_of_ascii c.

Definition between (lo hi n : nat) : bool := ((lo <=? n) && (n <=? hi))%nat.

(** [c.isspace()]: tab to carriage return, the separators 0x1c-0x1f, the
    space, next line (0x85) and the no-break space (0xa0). *)
Definition isspace (c : ascii) : bool :=
  let n := code c in
  between 9 13 n || between 28 32 n || (n =? 133)%nat || (n =? 160)%nat.

(** The whitespace [int] skips around a literal: of the ASCII characters
    only C's [isspace] ones, so not 0x1c-0x1f. *)
Definition int_isspace (c : ascii) : bool :=
  let n := code c in
  between 9 13 n || (n =? 32)%nat || (n =? 133)%nat || (n =? 160)%nat.

(** [c.isalpha()]: the letters, with the ordinal indicators (0xaa, 0xba),
    the micro sign and the accented letters. *)
Definition isalpha (c : ascii) : bool :=
  let n := code c in
  between 65 90 n || between 97 122 n || (n =? 170)%nat || (n =? 181)%nat
  || (n =? 186)%nat || between 192 214 n || between 216 246 n
  || between 248 255 n.

(** [c.isupper()]. *)
Definition isupper (c : ascii) : bool :=
  let n := code c in
  between 65 90 n || between 192 214 n || between 216 222 n.

(** [c.upper()], as code points: the result can be two characters (the
    sharp s) or lie beyond 255 (the micro sign, y with diaeresis). *)
Definition upper (c : ascii) : list nat :=
  let n := code c in
  if between 97 122 n || between 224 246 n || between 248 254 n
  then [(n - 32)%nat]
  else if (n =? 181)%nat then [924%nat]
  else if (n =? 223)%nat then [83; 83]%nat
  else if (n =? 255)%nat then [376%nat]
  else [n].

Definition is_empty (s : string) : bool :=
  match s with EmptyString => true | String _ _ => false end.

(** [s.lstrip()], [s.rstrip()] and [s.strip()], for a given class of
    characters to strip. *)
Fixpoint lstrip_by (P : ascii -> bool) (s : string) : string :=
  match s with
  | EmptyString => EmptyString
  | String c s' => if P c then lstrip_by P s' else s
  end.

Fixpoint rstrip_by (P : ascii -> bool) (s : string) : string :=
  match s with
  | EmptyString => EmptyString
  | String c s' =>
      let r := rstrip_by P s' in
      if P c && is_empty r then EmptyString else String c r
  end.

Definition strip_by (P : ascii -> bool) (s : string) : string :=
  rstrip_by P (lstrip_by P s).

Definition strip (s : string) : string := strip_by isspace s.

(** [s.split(sep, maxsplit)] for a one-character separator; [None] is
    Python's default [maxsplit = -1] (no limit). *)
Fixpoint split (sep : ascii) (maxsplit : option nat) (s : string)
  : list string :=
  match s with
  | EmptyString => [EmptyString]
  | String c s' =>
      match maxsplit with
      | Some O => [s]
      | _ =>
          if Ascii.eqb c sep
          then EmptyString :: split sep (Nat.pred <$> maxsplit) s'
          else match split sep maxsplit s' with
               | h :: t => String c h :: t
               | [] => [String c EmptyString]
               end
      end
  end.

(** [sep.join(parts)]. *)
Fixpoint join (sep : string) (parts : list string) : string :=
  match parts with
  | [] => EmptyString
  | [p] => p
  | p :: rest => p +:+ sep +:+ join sep rest
  end.

(** [str(n)] for an integer: canonical decimal, [-] for negatives. *)
Definition str (n : Z) : string := NilZero.string_of_int (Z.to_int n).

Definition digit (c : ascii) : option Z :=
  let n := code c in
  if between 48 57 n then Some (Z.of_nat (n - 48)) else None.

(** The digits of an integer literal as [int] reads them: at least one
    digit, single underscores allowed between digits only. [after_digit]
    tells whether the previous character was a digit. *)
Fixpoint digits (s : string) (acc : Z) (after_digit : bool) : option Z :=
  match s with
  | EmptyString => if after_digit then Some acc else None
  | String c s' =>
      match digit c with
      | Some d => digits s' (10 * acc + d) true
      | None =>
          if Ascii.eqb c "_" && after_digit then digits s' acc false
          else None
      end
  end.

(** [int(s)] for a string, base 10: the whitespace around the literal is
    skipped, an optional sign comes first; [None] stands for the
    [ValueError]. *)
Definition signed (s : string) : option Z :=
  match s with
  | String "-" s' => Z.opp <$> digits s' 0 false
  | String "+" s' => digits s' 0 false
  | s' => digits s' 0 false
  end.

Definition int (s : string) : option Z := signed (strip_by int_isspace s).

(** Every character of [s] passes the test [P]. *)
Fixpoint every (P : ascii -> bool) (s : string) : bool :=
  match s with
  | EmptyString => true
  | String c s' => P c && every P s'
  end.

Definition isdigit (c : ascii) : bool := between 48 57 (code c).

(** The characters [str] writes an integer with. *)
Definition isnumeral (c : ascii) : bool := isdigit c || Ascii.eqb c "-".

(** Number of occurrences of a character: [s.count(c)]. *)
Fixpoint count (c : ascii) (s : string) : nat :=
  match s with
  | EmptyString => O
  | String d s' => (if Ascii.eqb d c then 1 else 0) + count c s'
  end.

(** The line feed, which Rocq's string literals cannot escape. *)
Definition LF : ascii := ascii_of_nat 10.
Definition nl : string := String LF EmptyString.
Definition dquote : string := String (ascii_of_nat 34) EmptyString.

End Py.

(** ** Data model *)

(** One matched line: the dict [search] yields, with its four keys. *)
Record Match := mkMatch {
  path : string;
  line_nr : Z;
  col_nr : Z;
  content : string;
}.

Global Instance Match_eq_dec : EqDecision Match.
Proof. solve_decision. Defined.

(** Why a raw line is not a match: fewer than four colon-separated
    sections ([raise ValueError('Too few colon-separated section ...')]), or
    a line or column field that [int] rejects (the [ValueError] of [int]). *)
Inductive malformed :=
| TooFewSections (line : string)
| NotAnInteger (field : string).

(** The exceptions of the pipeline, one constructor per raise site:
    - [SearchEngineError error]: [raise ValueError(error)] in [search];
    - [MalformedMatchError]: the two [ValueError]s of the parsing loop;
    - [EmptyQueryError]: the [IndexError] of [query[0]] on an empty
      trimmed query in [search_for_haskell_defns];
    - [NoSearchRootsError]: the [IndexError] of [folders[0]];
    - [TimeoutExpired]: raised by [subprocess.run] after the timeout;
    - [UnboundLocalError]: [matches] read after an unknown search mode. *)
Inductive error :=
| SearchEngineError (stderr : string)
| MalformedMatchError (why : malformed)
| EmptyQueryError
| NoSearchRootsError
| TimeoutExpired
| UnboundLocalError.

(** The settings file, read through [get_engine_name] and the like. *)
Record Settings := mkSettings {
  get_engine_name : string;
  get_executable_path : string;
  get_required_args : list string;
  get_show_list_by_default : bool;
}.

(** What [subprocess.run] hands back. *)
Record CompletedProcess := mkCompleted {
  returncode : Z;
  stdout : string;
  stderr : string;
}.

(** The visible effects: text printed to the console, a process run with
    its argument list, working directory and timeout in seconds, and a
    Sublime error dialog. *)
Inductive event :=
| Printed (text : string)
| Ran (cmd : list string) (cwd : string) (timeout : Z)
| ErrorMessage (text : string).

(** ** A state-and-error monad over the log of events *)

Definition M (A : Type) : Type := list event -> (error + A) * list event.

Global Instance M_ret : MRet M := fun _ a log => (inr a, log).

Global Instance M_bind : MBind M := fun _ _ k c log =>
  match c log with
  | (inr a, log') => k a log'
  | (inl e, log') => (inl e, log')
  end.

Definition raise {A} (e : error) : M A := fun log => (inl e, log).
Definition emit (e : event) : M unit := fun log => (inr tt, log ++ [e]).
Definition lift {A} (r : error + A) : M A := fun log => (r, log).

(** Failing with [SearchEngineError]: the [raise ValueError(error)] of
    [search]. *)
Definition engine_error {A} (r : error + A) : Prop :=
  exists e, r = inl (SearchEngineError e).

(** ** MatchParser: one raw line to one match (lines 334-342) *)

Definition parse_match (line : string) : error + Match :=
  match Py.split ":" (Some 3%nat) line with
  | p0 :: p1 :: p2 :: p3 :: _ =>
      match Py.int p1 with
      | None => inl (MalformedMatchError (NotAnInteger p1))
      | Some l =>
          match Py.int p2 with
          | None => inl (MalformedMatchError (NotAnInteger p2))
          | Some c => inr (mkMatch (Py.strip p0) l c p3)
          end
      end
  | _ => inl (MalformedMatchError (TooFewSections line))
  end.

(** The loop [for line in output.split("\n")] of [search]: blank lines are
    skipped, the first line that does not parse raises. *)
Fixpoint parse_lines (lines : list string) : error + list Match :=
  match lines with
  | [] => inr []
  | line :: rest =>
      if Py.is_empty (Py.strip line) then parse_lines rest
      else
        match parse_match line with
        | inl e => inl e
        | inr m =>
            match parse_lines rest with
            | inl e => inl e
            | inr ms => inr (m :: ms)
            end
        end
  end.

Definition parse_output (output : string) : error + list Match :=
  parse_lines (Py.split Py.LF None output).

(** The line the engine prints for a match, [path:line:col:content]:
    [render_location] followed by a colon and the content. *)
Definition render_location (m : Match) : string :=
  Py.join ":" [path m; Py.str (line_nr m); Py.str (col_nr m)].

Definition render_raw_line (m : Match) : string :=
  render_location m +:+ ":" +:+ content m.

(** ** ProcessSearchRunner: [search] *)

Definition engines_needing_error_output : gset string :=
  {[ "ripgrep"; "the_platinum_searcher"; "the_silver_searcher" ]}.

Section Search.

Variable settings : Settings.

(** The outside world: what running a command yields, given everything
    that happened before; [None] is the timeout. *)
Variable subprocess_run :
  list event -> list string -> string -> option CompletedProcess.

Definition run (cmd : list string) (cwd : string) (timeout : Z)
  : M CompletedProcess :=
  fun log =>
    match subprocess_run log cmd cwd with
    | Some p => (inr p, log ++ [Ran cmd cwd timeout])
    | None => (inl TimeoutExpired, log ++ [Ran cmd cwd timeout])
    end.

(** The error-detection policy of [search], on the stripped stderr. *)
Definition is_error (p : CompletedProcess) : bool :=
  let error := Py.strip (stderr p) in
  if bool_decide (get_engine_name settings ∈ engines_needing_error_output)
  then negb (returncode p =? 0)%Z && negb (Py.is_empty error)
  else negb (returncode p =? 0)%Z.

(** The argument list [cmd] of [search]. *)
Definition command (query : string) (folders : list string) : list string :=
  [get_executable_path settings] ++ get_required_args settings
    ++ [query] ++ folders.

Definition search (query : string) (folders : list string)
  : M (list Match) :=
  if Py.is_empty (Py.strip query) then mret []
  else
    let cmd := command query folders in
    emit (Printed ("Running: " +:+ Py.join " " cmd)) ;;
    match folders with
    | [] => raise NoSearchRootsError
    | cwd :: _ =>
        completed_process ← run cmd cwd 10 ;
        let output := Py.strip (stdout completed_process) in
        let error := Py.strip (stderr completed_process) in
        if is_error completed_process then raise (SearchEngineError error)
        else lift (parse_output output)
    end.

(** ** QueryPlanner: [search_for_haskell_defns] *)

(** The test on the first character:
    [query[0].isalpha() and query[0].upper() == query[0]]. *)
Definition starts_type_name (c : ascii) : bool :=
  Py.isalpha c && bool_decide (Py.upper c = [Py.code c]).

(** The two [queries] lists, label first, regular expression second; the
    query text is interpolated as it is. *)
Definition type_queries (query : string) : list (string * string) :=
  let first_constructor_query :=
    "(data|newtype) .+\s* =\s* " +:+ query +:+ "\s" in
  let later_constructor_query := "\|\s* " +:+ query +:+ "\s" in
  [ ("Module", "^module +(" +:+ query +:+ ")\s");
    ("Type definition",
     "^(data|newtype|type)\s+" +:+ query
       +:+ "(\s+[a-z]+)*\s+(=|where)\s");
    ("Class definition",
     "^class\s+([a-zA-Z\s.\(\),]+=>\s+)?" +:+ query
       +:+ "(\s+[a-z]+)*\s+where\s");
    ("Constructor",
     "(" +:+ first_constructor_query +:+ ")|("
       +:+ later_constructor_query +:+ ")") ].

Definition value_queries (query : string) : list (string * string) :=
  [ ("Value type", "^ *(" +:+ query +:+ ")\s+::\s+.");
    ("Value definition", "^ *(" +:+ query +:+ ")\s+[^=$]*\s=\s");
    ("Record getter", " +[{,] +(" +:+ query +:+ ")\s+::\s+") ].

(** Lines 346-388: trim, look at the first character, build [queries]. *)
Definition haskell_defn_queries (query : string)
  : error + list (string * string) :=
  let query := Py.strip query in
  match query with
  | EmptyString => inl EmptyQueryError
  | String c _ =>
      inr (if starts_type_name c then type_queries query
           else value_queries query)
  end.

(** Lines 389-398: each sub-query is a full search, in order, and the
    matches are concatenated; the label is not used. *)
Fixpoint run_queries (queries : list (string * string))
  (folders : list string) : M (list Match) :=
  match queries with
  | [] => mret []
  | (_, sub_query) :: rest =>
      sub_query_matches ← search sub_query folders ;
      matches ← run_queries rest folders ;
      mret (sub_query_matches ++ matches)
  end.

Definition search_for_haskell_defns (query : string)
  (folders : list string) : M (list Match) :=
  queries ← lift (haskell_defn_queries query) ;
  run_queries queries folders.

End Search.

(** ** AdjacentMatchFilter: [remove_similar_matches] *)

(** The two [continue]s of the loop body: [this_match] is skipped when it
    has the path of [prev_match] and either the same line number or, with
    [ignore_adjacents], the next one. *)
Definition skipped (ignore_adjacents : bool) (prev_match this_match : Match)
  : bool :=
  if String.eqb (path this_match) (path prev_match) then
    if (line_nr this_match =? line_nr prev_match)%Z then true
    else ignore_adjacents
         && (line_nr this_match =? line_nr prev_match + 1)%Z
  else false.

(** Whether the input match at index [i] is yielded: index 0 always is,
    index [i >= 1] is compared with the input match at [i - 1]. *)
Definition yielded (matches : list Match) (ignore_adjacents : bool)
  (i : nat) : bool :=
  match i with
  | O => bool_decide (is_Some (matches !! O))
  | S j =>
      match matches !! j, matches !! i with
      | Some prev_match, Some this_match =>
          negb (skipped ignore_adjacents prev_match this_match)
      | _, _ => false
      end
  end.

(** The generator, consumed: the first match, then one pass over
    [range(1, len(matches))]. *)
Definition remove_similar_matches (matches : list Match)
  (ignore_adjacents : bool) : list Match :=
  match matches with
  | [] => []
  | first :: _ => [first]
  end
  ++ omap (fun i =>
             if yielded matches ignore_adjacents i then matches !! i
             else None)
          (seq 1 (length matches - 1)).

(** The same pass written as a recursion that carries the previous input
    match along. *)
Fixpoint yielded_after (ignore_adjacents : bool) (prev_match : Match)
  (rest : list Match) : list Match :=
  match rest with
  | [] => []
  | this_match :: rest' =>
      (if skipped ignore_adjacents prev_match this_match then []
       else [this_match])
      ++ yielded_after ignore_adjacents this_match rest'
  end.

(** A run in the input: the [k] matches from index [p] on share the path
    [run_path] and have the line numbers [n], [n + 1], ..., [n + k - 1]. *)
Definition run_at (matches : list Match) (p k : nat) (run_path : string)
  (n : Z) : Prop :=
  forall j, (j < k)%nat ->
    exists m, matches !! (p + j)%nat = Some m
              /\ path m = run_path /\ line_nr m = n + Z.of_nat j.

(** The match at index [p], of path [at_path] and line [n], has nothing
    before it that hides it: it is the first input match, or the input match
    before it has another path, or a line number that is neither [n] nor,
    with [ignore_adjacents], [n - 1]. *)
Definition starts_fresh (matches : list Match) (ignore_adjacents : bool)
  (p : nat) (at_path : string) (n : Z) : Prop :=
  match p with
  | O => True
  | S q =>
      forall prev_match, matches !! q = Some prev_match ->
        path prev_match <> at_path
        \/ (line_nr prev_match <> n
            /\ (ignore_adjacents = true -> line_nr prev_match <> n - 1))
  end.

(** ** The two search modes of [search_and_display] (lines 126-138) *)

Section Modes.

Variable settings : Settings.
Variable subprocess_run :
  list event -> list string -> string -> option CompletedProcess.

Definition search_and_display_matches (search_mode query : string)
  (folders : list string) : M (list Match) :=
  if String.eqb search_mode "plain" then
    found ← search settings subprocess_run query folders ;
    mret (remove_similar_matches found false)
  else if String.eqb search_mode "haskell" then
    found ← search_for_haskell_defns settings subprocess_run query folders ;
    mret (remove_similar_matches found true)
  else
    emit (ErrorMessage ("Unknown search mode: " +:+ search_mode)) ;;
    raise UnboundLocalError.

End Modes.

(** ** ResultPresenter: [render_matches] on shared match dicts

    [render_matches] pops a key from the dicts it is handed, so here a match
    is a reference into a store of dicts, as in Python: the list of matches
    may name one dict twice, and the caller sees the dicts afterwards. *)

Module Render.

Inductive pyval :=
| VStr (s : string)
| VInt (z : Z).

Global Instance pyval_eq_dec : EqDecision pyval.
Proof. solve_decision. Defined.

(** [str(v)], as [format] and f-strings apply it. *)
Definition to_str (v : pyval) : string :=
  match v with
  | VStr s => s
  | VInt z => Py.str z
  end.

Definition loc := nat.

(** The store: every dict object by its reference. *)
Abbreviation store := (gmap loc (gmap string pyval)).

(** [KeyError] of [d.pop(key)] and [d[key]]; [NoSuchObject] makes the
    model total on a reference to nothing, which Python cannot hold. *)
Inductive exn :=
| KeyError (key : string)
| NoSuchObject (l : loc).

Definition R (A : Type) : Type := store -> (exn + A) * store.

Global Instance R_ret : MRet R := fun _ a h => (inr a, h).

Global Instance R_bind : MBind R := fun _ _ k c h =>
  match c h with
  | (inr a, h') => k a h'
  | (inl e, h') => (inl e, h')
  end.

(** The dict a match of [search] is. *)
Definition match_dict (m : Match) : gmap string pyval :=
  {[ "path" := VStr (path m); "line_nr" := VInt (line_nr m);
     "col_nr" := VInt (col_nr m); "content" := VStr (content m) ]}.

(** [m.pop(key)]: the value, and the key is gone from the dict. *)
Definition pop (l : loc) (key : string) : R pyval :=
  fun h =>
    match h !! l with
    | None => (inl (NoSuchObject l), h)
    | Some d =>
        match d !! key with
        | None => (inl (KeyError key), h)
        | Some v => (inr v, <[l := delete key d]> h)
        end
    end.

(** [m[key]]. *)
Definition getitem (l : loc) (key : string) : R pyval :=
  fun h =>
    match h !! l with
    | None => (inl (NoSuchObject l), h)
    | Some d =>
        match d !! key with
        | None => (inl (KeyError key), h)
        | Some v => (inr v, h)
        end
    end.

(** [matches_by_path[path].append(match)] on the [defaultdict(list)]:
    keys keep the order of their first insertion. *)
Fixpoint append_at (path : pyval) (l : loc)
  (matches_by_path : list (pyval * list loc)) : list (pyval * list loc) :=
  match matches_by_path with
  | [] => [(path, [l])]
  | (p, ls) :: rest =>
      if decide (p = path) then (p, ls ++ [l]) :: rest
      else (p, ls) :: append_at path l rest
  end.

(** The grouping loop of [render_matches] (lines 274-276). *)
Fixpoint group (matches : list loc)
  (matches_by_path : list (pyval * list loc))
  : R (list (pyval * list loc)) :=
  match matches with
  | [] => mret matches_by_path
  | m :: rest =>
      path ← pop m "path" ;
      group rest (append_at path m matches_by_path)
  end.

Definition render_line (m : loc) : R string :=
  l ← getitem m "line_nr" ;
  c ← getitem m "col_nr" ;
  s ← getitem m "content" ;
  mret ("  " +:+ to_str l +:+ ":" +:+ to_str c +:+ " " +:+ to_str s).

Fixpoint render_lines (matches : list loc) : R (list string) :=
  match matches with
  | [] => mret []
  | m :: rest =>
      line ← render_line m ;
      lines ← render_lines rest ;
      mret (line :: lines)
  end.

Definition render_path_matches (path : pyval) (matches : list loc)
  : R string :=
  rendered ← render_lines matches ;
  mret (to_str path +:+ ":" +:+ Py.nl +:+ Py.join Py.nl rendered).

Fixpoint render_blocks (matches_by_path : list (pyval * list loc))
  : R (list string) :=
  match matches_by_path with
  | [] => mret []
  | (path, path_matches) :: rest =>
      block ← render_path_matches path path_matches ;
      blocks ← render_blocks rest ;
      mret (block :: blocks)
  end.

Definition render_matches (matches : list loc) (query : string)
  : R string :=
  matches_by_path ← group matches [] ;
  let match_count := Z.of_nat (length matches) in
  let path_count := Z.of_nat (length matches_by_path) in
  let intro :=
    "GrepSearch matches for " +:+ Py.dquote +:+ query +:+ Py.dquote
      +:+ " (" +:+ Py.str match_count +:+ " lines in "
      +:+ Py.str path_count +:+ " files):" in
  blocks ← render_blocks matches_by_path ;
  mret (intro +:+ Py.nl +:+ Py.nl +:+ Py.join Py.nl blocks).

End Render.

(** ** Notions the further properties are stated with *)

(** No match of the list would be skipped after the one before it. *)
Fixpoint no_similar_neighbours (ignore_adjacents : bool) (l : list Match)
  : bool :=
  match l with
  | a :: (b :: _) as rest =>
      negb (skipped ignore_adjacents a b)
      && no_similar_neighbours ignore_adjacents rest
  | _ => true
  end.

(** The lines the loop of [search] hands to the parser: those that are not
    blank. *)
Definition not_blank (line : string) : bool :=
  negb (Py.is_empty (Py.strip line)).

(** A match as the loop of [search] makes them: no line feed in the path or
    the content, no colon in the path, no whitespace around the path. *)
Definition plain_match (m : Match) : Prop :=
  Py.count Py.LF (content m) = O /\ Py.count Py.LF (path m) = O
  /\ Py.count ":" (path m) = O /\ Py.strip (path m) = path m.

(** The matches as the engine would print them, one raw line each. *)
Definition render_raw_lines (ms : list Match) : string :=
  Py.join Py.nl (map render_raw_line ms).

(** The number of processes run, in a piece of the log. *)
Definition is_ran (e : event) : bool :=
  match e with
  | Ran _ _ _ => true
  | _ => false
  end.

Definition runs (events : list event) : nat :=
  length (List.filter is_ran events).

(** The elements of a list, each once, in the order of their first
    occurrence. *)
Fixpoint nub `{EqDecision A} (l : list A) : list A :=
  match l with
  | [] => []
  | x :: l' => x :: List.filter (fun y => negb (bool_decide (y = x))) (nub l')
  end.

Module Report.
Import Render.

(** The path a match dict holds in a store, if the dict is there and has
    one. *)
Definition path_of (h : store) (l : loc) : option pyval :=
  match h !! l with
  | Some d => d !! "path"
  | None => None
  end.

(** The matches of a list that hold a given path, in the list's order. *)
Definition with_path (h : store) (p : pyval) (matches : list loc)
  : list loc :=
  List.filter (fun l => bool_decide (path_of h l = Some p)) matches.

(** The grouping by path: one group per path, in the order in which the
    paths first occur, each with its matches in the order of the list. *)
Definition grouped (h : store) (matches : list loc)
  : list (pyval * list loc) :=
  map (fun p => (p, with_path h p matches)) (nub (omap (path_of h) matches)).

(** The matches of a list with the paths they hold, and the grouping loop
    as a fold over them. *)
Definition items (h : store) (matches : list loc) : list (pyval * loc) :=
  omap (fun l => match path_of h l with
                 | Some p => Some (p, l)
                 | None => None
                 end) matches.

Definition regroup (its : list (pyval * loc))
  (acc : list (pyval * list loc)) : list (pyval * list loc) :=
  foldl (fun acc it => append_at it.1 it.2 acc) acc its.

(** The first line of the report. *)
Definition header (query : string) (match_count path_count : nat) : string :=
  "GrepSearch matches for " +:+ Py.dquote +:+ query +:+ Py.dquote
    +:+ " (" +:+ Py.str (Z.of_nat match_count) +:+ " lines in "
    +:+ Py.str (Z.of_nat path_count) +:+ " files):".

(** What a key of a match dict is printed as. *)
Definition field (h : store) (l : loc) (key : string) : string :=
  match h !! l with
  | Some d => match d !! key with
              | Some v => to_str v
              | None => EmptyString
              end
  | None => EmptyString
  end.

(** The line of a match, the block of a path and the whole report. *)
Definition line (h : store) (l : loc) : string :=
  "  " +:+ field h l "line_nr" +:+ ":" +:+ field h l "col_nr" +:+ " "
    +:+ field h l "content".

Definition block (h : store) (g : pyval * list loc) : string :=
  to_str g.1 +:+ ":" +:+ Py.nl +:+ Py.join Py.nl (map (line h) g.2).

Definition report (h : store) (matches : list loc) (query : string)
  : string :=
  header query (length matches) (length (nub (omap (path_of h) matches)))
    +:+ Py.nl +:+ Py.nl
    +:+ Py.join Py.nl (map (block h) (grouped h matches)).

End Report.

(** ** The editor side of the plugin

    Sublime Text is seen through the calls the plugin makes on it, logged as
    events, and through what it answers: the view [open_file] returns and
    the views of the window.  Paths are POSIX paths. *)

(** ** [pathlib] on POSIX: pure paths *)

Module PurePosixPath.

(** A parsed path: its root ([/], [//] or none) and the parts after it. *)
Record t := mk {
  root : string;
  parts : list string;
}.

Definition is_sep (c : ascii) : bool := Ascii.eqb c "/".

(** [splitroot]: exactly two leading slashes are a root of their own, any
    other number of them is the root [/]. *)
Definition splitroot (part : string) : string * string :=
  match part with
  | String c _ =>
      if is_sep c then
        let stripped := Py.lstrip_by is_sep part in
        if (String.length part - String.length stripped =? 2)%nat
        then ("//", stripped)
        else ("/", stripped)
      else (EmptyString, part)
  | EmptyString => (EmptyString, part)
  end.

(** The parts kept by [parse_parts]: not empty and not [.]. *)
Definition is_part (x : string) : bool :=
  negb (Py.is_empty x) && negb (String.eqb x ".").

(** A part as [parse_parts] keeps them: kept by [is_part], and without
    separator. *)
Definition is_name (x : string) : Prop :=
  is_part x = true /\ Py.count "/" x = O.

(** [PurePosixPath(s)]. *)
Definition parse (s : string) : t :=
  let '(root, rel) := splitroot s in
  mk root (List.filter is_part (Py.split "/" None rel)).

(** [str(path)]. *)
Definition str (p : t) : string :=
  let s := root p +:+ Py.join "/" (parts p) in
  if Py.is_empty s then "." else s.

Fixpoint strip_prefix (prefix l : list string) : option (list string) :=
  match prefix, l with
  | [], _ => Some l
  | x :: prefix', y :: l' =>
      if String.eqb x y then strip_prefix prefix' l' else None
  | _ :: _, [] => None
  end.

(** [path.relative_to(other)]; [None] is its [ValueError]. *)
Definition relative_to (p other : t) : option t :=
  if String.eqb (root p) (root other)
  then mk EmptyString <$> strip_prefix (parts other) (parts p)
  else None.

(** [key / path] for a string [key]: a path with a root replaces what is on
    its left. *)
Definition rtruediv (key : string) (p : t) : t :=
  if Py.is_empty (root p)
  then mk (root (parse key)) (parts (parse key) ++ parts p)
  else p.

End PurePosixPath.

Module Plugin.

(** [p[:p.rfind('/') + 1]]: the path up to and with its last slash. *)
Fixpoint upto_last_slash (p : string) : string :=
  match p with
  | EmptyString => EmptyString
  | String c p' =>
      let r := upto_last_slash p' in
      if Ascii.eqb c "/" || negb (Py.is_empty r) then String c r
      else EmptyString
  end.

Definition is_slash (c : ascii) : bool := Ascii.eqb c "/".

(** [os.path.dirname(p)]. *)
Definition dirname (p : string) : string :=
  let head := upto_last_slash p in
  if negb (Py.is_empty head) && negb (Py.every is_slash head)
  then Py.rstrip_by is_slash head
  else head.

(** [s[:n]]. *)
Fixpoint take (n : nat) (s : string) : string :=
  match n, s with
  | S n', String c s' => String c (take n' s')
  | _, _ => EmptyString
  end.

(** [l[i]] for a Python index, which counts from the end when negative;
    [None] is the [IndexError]. *)
Definition getitem {A} (l : list A) (i : Z) : option A :=
  if (0 <=? i)%Z then l !! Z.to_nat i
  else if (- Z.of_nat (length l) <=? i)%Z
       then l !! Z.to_nat (Z.of_nat (length l) + i)
       else None.

Definition MAX_RESULT_LINE_LENGTH : nat := 1000.
Definition SEARCH_INPUT_PROMPT_STR : string := "Search:".
Definition LIST_RESULTS_ROW : string := "``` List results in view ```".

(** The window: its folders, and the file name of its active view ([None]
    for a view without file). *)
Record Window := mkWindow {
  window_folders : list string;
  active_file_name : option string;
}.

(** A row of the quick panel: a pair of shortened location and text, or a
    bare text. *)
Inductive row :=
| ResultRow (location : option string) (text : string)
| TextRow (text : string).

Inductive ui_event :=
| ErrorDialog (text : string)
| MessageDialog (text : string)
| InputPanel (caption initial_text search_mode : string)
| QuickPanel (rows : list row) (query : string) (matches : list Match)
| OpenedFile (location : string) (transient : bool)
| AddedRegions (view : Z) (query : string)
| FocusedView (view : Z)
| ErasedRegions (view : Z)
| ListedInView (matches : list Match) (query : string).

(** The exceptions on this side: the [ValueError] of
    [search_folders_for_window], the [IndexError] of [matches[file_nr]], and
    those of the search pipeline. *)
Inductive ui_error :=
| NoFoldersError
| MatchIndexError
| SearchError (e : error).

(** The state: [callbacks_on_view_loaded], by view id, each callback being
    [annotate_view] with the query it closes over; the log of calls on the
    editor; the log of the search pipeline. *)
Record state := mkState {
  callbacks_on_view_loaded : gmap Z string;
  ui_log : list ui_event;
  engine_log : list event;
}.

Definition U (A : Type) : Type := state -> (ui_error + A) * state.

Global Instance U_ret : MRet U := fun _ a st => (inr a, st).

Global Instance U_bind : MBind U := fun _ _ k c st =>
  match c st with
  | (inr a, st') => k a st'
  | (inl e, st') => (inl e, st')
  end.

Definition fail {A} (e : ui_error) : U A := fun st => (inl e, st).

Definition call (e : ui_event) : U unit :=
  fun st => (inr tt, mkState (callbacks_on_view_loaded st)
                       (ui_log st ++ [e]) (engine_log st)).

(** A computation of the search pipeline, run on its own log. *)
Definition pipeline {A} (c : M A) : U A :=
  fun st =>
    match c (engine_log st) with
    | (inr a, log') =>
        (inr a, mkState (callbacks_on_view_loaded st) (ui_log st) log')
    | (inl e, log') =>
        (inl (SearchError e),
         mkState (callbacks_on_view_loaded st) (ui_log st) log')
    end.

(** [search_folders_for_window] (lines 46-56). *)
Definition search_folders_for_window (window : Window) : U (list string) :=
  match window_folders window with
  | _ :: _ => mret (window_folders window)
  | [] =>
      match active_file_name window with
      | Some (String c name) => mret [dirname (String c name)]
      | _ =>
          call (ErrorDialog "No folders to search in") ;;
          fail NoFoldersError
      end
  end.

(** The first lines of [GrepSearchCommand.run]: the selection is the
    initial query unless it is empty or spans lines. *)
Definition initial_query (selected_text : string) : string :=
  if negb (Py.is_empty selected_text)
     && (Py.count Py.LF selected_text =? 0)%nat
  then selected_text
  else EmptyString.

(** [on_load_async] of the event listener (lines 80-86): the callback of the
    view, if there is one, is taken out of the registry and run. *)
Definition annotate_view (query : string) (view : Z) : U unit :=
  call (AddedRegions view query).

Definition on_load_async (view : Z) : U unit :=
  fun st =>
    match callbacks_on_view_loaded st !! view with
    | None => (inr tt, st)
    | Some query =>
        annotate_view query view
          (mkState (delete view (callbacks_on_view_loaded st))
             (ui_log st) (engine_log st))
    end.

Definition on_load (view : Z) : U unit := on_load_async view.

Section Editor.

Variable settings : Settings.
Variable subprocess_run :
  list event -> list string -> string -> option CompletedProcess.

(** [window.open_file]: the id of the view it returns and whether the view
    is still loading; [window.views()]. *)
Variable open_file : list ui_event -> string -> Z * bool.
Variable views : list ui_event -> list Z.

(** [pathlib]: [Path(path).relative_to(prefix)], [None] for its
    [ValueError], and [str(abbrev / relative)]; the home directory. *)
Variable relative_to : string -> string -> option string.
Variable joined : string -> string -> string.
Variable HOME : string.

(** [shorten_path] (lines 59-66): the first prefix the path is relative to
    gives the result; [None] when there is none. *)
Fixpoint first_relative (path : string) (abbrevs : list (string * string))
  : option string :=
  match abbrevs with
  | [] => None
  | (prefix, abbrev) :: rest =>
      match relative_to path prefix with
      | Some relative => Some (joined abbrev relative)
      | None => first_relative path rest
      end
  end.

Definition shorten_path (path : string) (heres : list string)
  : option string :=
  let abbrevs := map (fun here => (here, ".")) heres ++ [(HOME, "~")] in
  first_relative path abbrevs.

(** [open_and_highlight_file] (lines 175-199). *)
Definition open_and_highlight_file (query : string) (m : Match)
  (transient : bool) : U unit :=
  fun st =>
    let '(view, is_loading) := open_file (ui_log st) (render_location m) in
    let st1 := mkState (callbacks_on_view_loaded st)
                 (ui_log st ++ [OpenedFile (render_location m) transient])
                 (engine_log st) in
    if is_loading
    then (inr tt, mkState (<[view := query]> (callbacks_on_view_loaded st1))
                    (ui_log st1) (engine_log st1))
    else annotate_view query view st1.

(** [on_highlight] (lines 171-173). *)
Definition on_highlight (query : string) (matches : list Match)
  (file_nr : Z) : U unit :=
  if (file_nr =? -1)%Z || (file_nr =? Z.of_nat (length matches))%Z
  then mret tt
  else match getitem matches file_nr with
       | Some m => open_and_highlight_file query m true
       | None => fail MatchIndexError
       end.

(** [clear_markup] (lines 214-216) and [list_in_view] (lines 218-222). *)
Definition clear_markup : U unit :=
  fun st =>
    (inr tt, mkState (callbacks_on_view_loaded st)
               (ui_log st ++ map ErasedRegions (views (ui_log st)))
               (engine_log st)).

Definition list_in_view (query : string) (matches : list Match) : U unit :=
  call (ListedInView matches query).

(** [on_done] (lines 202-212). *)
Definition on_done (original_view : Z) (query : string)
  (matches : list Match) (file_nr : Z) : U unit :=
  (if (file_nr =? -1)%Z then call (FocusedView original_view)
   else if (file_nr =? Z.of_nat (length matches))%Z
        then list_in_view query matches
        else match getitem matches file_nr with
             | Some m => open_and_highlight_file query m false
             | None => fail MatchIndexError
             end) ;;
  clear_markup.

(** The rows of the quick panel (lines 146-152). *)
Definition display_results (folders : list string) (matches : list Match)
  : list row :=
  map (fun m =>
         ResultRow (shorten_path (render_location m) folders)
           (take MAX_RESULT_LINE_LENGTH (Py.strip (content m))))
      matches
  ++ [TextRow LIST_RESULTS_ROW].

(** [search_and_display] (lines 122-169). *)
Definition search_and_display (window : Window) (search_mode query : string)
  : U unit :=
  folders ← search_folders_for_window window ;
  matches ← pipeline (search_and_display_matches settings subprocess_run
                        search_mode query folders) ;
  match matches with
  | [] => call (MessageDialog "No results")
  | _ :: _ =>
      if get_show_list_by_default settings then list_in_view query matches
      else
        on_highlight query matches 0 ;;
        call (QuickPanel (display_results folders matches) query matches)
  end.

(** [GrepSearchCommand.run] (lines 97-120). *)
Definition run (window : Window) (selected_text : string)
  (immediate : bool) (search_mode : string) : U unit :=
  let initial := initial_query selected_text in
  if immediate then
    if Py.is_empty initial then call (ErrorDialog "Nothing selected to search")
    else search_and_display window search_mode initial
  else
    call (InputPanel SEARCH_INPUT_PROMPT_STR initial search_mode).

End Editor.

(** [pathlib] on POSIX, for [shorten_path]: [Path(path).relative_to(prefix)]
    and [str(abbrev / relative)], the relative path being stood for by its
    [str]. *)
Definition posix_relative_to (path prefix : string) : option string :=
  PurePosixPath.str
    <$> PurePosixPath.relative_to (PurePosixPath.parse path)
          (PurePosixPath.parse prefix).

Definition posix_joined (abbrev relative : string) : string :=
  PurePosixPath.str
    (PurePosixPath.rtruediv abbrev (PurePosixPath.parse relative)).

End Plugin.

(** * Facts *)

(** ** Python string primitives *)

(** The character classes, listed by code point. *)
Example isspace_codes :
  List.filter (fun n => Py.isspace (ascii_of_nat n)) (seq 0 256)
  = [9; 10; 11; 12; 13; 28; 29; 30; 31; 32; 133; 160]%nat.
Proof. by vm_compute. Qed.

Example int_isspace_codes :
  List.filter (fun n => Py.int_isspace (ascii_of_nat n)) (seq 0 256)
  = [9; 10; 11; 12; 13; 32; 133; 160]%nat.
Proof. by vm_compute. Qed.

Example isupper_codes :
  List.filter (fun n => Py.isupper (ascii_of_nat n)) (seq 0 256)
  = [65; 66; 67; 68; 69; 70; 71; 72; 73; 74; 75; 76; 77; 78; 79; 80; 81; 82;
     83; 84; 85; 86; 87; 88; 89; 90; 192; 193; 194; 195; 196; 197; 198; 199;
     200; 201; 202; 203; 204; 205; 206; 207; 208; 209; 210; 211; 212; 213; 214;
     216; 217; 218; 219; 220; 221; 222]%nat.
Proof. by vm_compute. Qed.

Example starts_type_name_codes :
  List.filter (fun n => starts_type_name (ascii_of_nat n)) (seq 0 256)
  = [65; 66; 67; 68; 69; 70; 71; 72; 73; 74; 75; 76; 77; 78; 79; 80; 81; 82;
     83; 84; 85; 86; 87; 88; 89; 90; 170; 186; 192; 193; 194; 195; 196; 197;
     198; 199; 200; 201; 202; 203; 204; 205; 206; 207; 208; 209; 210; 211; 212;
     213; 214; 216; 217; 218; 219; 220; 221; 222]%nat.
Proof. by vm_compute. Qed.

Example split_content_colons :
  Py.split ":" (Some 3%nat) "src/a.py:10:3:def foo(): pass"
  = ["src/a.py"; "10"; "3"; "def foo(): pass"].
Proof. reflexivity. Qed.

Example split_few : Py.split ":" (Some 3%nat) "a:b" = ["a"; "b"].
Proof. reflexivity. Qed.

Example int_examples :
  Py.int " 12 " = Some 12 /\ Py.int "-007" = Some (-7) /\ Py.int "1_000" = Some 1000
  /\ Py.int "1__0" = None /\ Py.int "" = None /\ Py.int "+" = None
  /\ Py.int "3x" = None /\ Py.str (-42) = "-42" /\ Py.str 0 = "0".
Proof. repeat split; reflexivity. Qed.

Section PyFacts.
Import Py.

Lemma split_zero sep s : split sep (Some O) s = [s].
Proof. by destruct s. Qed.

Lemma split_prefix sep n a rest :
  count sep a = O ->
  split sep (Some (S n)) (a +:+ String sep rest)
  = a :: split sep (Some n) rest.
Proof.
  induction a as [|c a IH]; simpl; intros Hc.
  - by rewrite Ascii.eqb_refl.
  - destruct (Ascii.eqb c sep); [done|]. by rewrite IH.
Qed.

Lemma split_length_le sep n s : (length (split sep (Some n) s) <= S n)%nat.
Proof.
  revert n. induction s as [|c s IH]; intros n; simpl; [lia|].
  destruct n as [|n]; simpl; [lia|].
  destruct (Ascii.eqb c sep); simpl.
  - specialize (IH n). lia.
  - specialize (IH (S n)). destruct (split sep (Some (S n)) s); simpl in *; lia.
Qed.

Lemma split_length sep n s :
  length (split sep (Some n) s) = S (Nat.min n (count sep s)).
Proof.
  revert n. induction s as [|c s IH]; intros n; simpl.
  - by rewrite Nat.min_0_r.
  - destruct n as [|n]; simpl; [done|].
    destruct (Ascii.eqb c sep); simpl.
    + by rewrite IH.
    + specialize (IH (S n)).
      destruct (split sep (Some (S n)) s); simpl in *; lia.
Qed.

Lemma split_nonnil sep n s : split sep n s <> [].
Proof.
  destruct s as [|c s]; simpl; [done|].
  destruct n as [[|n]|]; try done;
    (destruct (Ascii.eqb c sep); [done|]; by destruct (split sep _ s)).
Qed.

Lemma join_cons sep p q rest :
  join sep (p :: q :: rest) = p +:+ sep +:+ join sep (q :: rest).
Proof. done. Qed.

Lemma split_join sep n s :
  join (String sep EmptyString) (split sep n s) = s.
Proof.
  revert n. induction s as [|c s IH]; intros n; [done|].
  assert (Hstep : forall m k,
    join (String sep EmptyString) (split sep k s) = s ->
    join (String sep EmptyString) (split sep m s) = s ->
    join (String sep EmptyString)
      (if Ascii.eqb c sep then EmptyString :: split sep k s
       else match split sep m s with
            | h :: t => String c h :: t
            | [] => [String c EmptyString]
            end) = String c s).
  { intros m k Hk Hm. destruct (Ascii.eqb_spec c sep) as [->|Hne].
    - pose proof (split_nonnil sep k s) as Hn.
      destruct (split sep k s) as [|h t]; [done|].
      rewrite join_cons, Hk. done.
    - pose proof (split_nonnil sep m s) as Hn.
      destruct (split sep m s) as [|h [|h' t]]; [done|..].
      + simpl in *. by rewrite Hm.
      + rewrite join_cons. rewrite join_cons in Hm. by rewrite <- Hm. }
  destruct n as [[|n]|]; [done|..]; simpl; apply Hstep; apply IH.
Qed.

Lemma lstrip_none P s :
  every (fun c => negb (P c)) s = true -> lstrip_by P s = s.
Proof. destruct s as [|c s]; simpl; [done|]. by destruct (P c). Qed.

Lemma rstrip_none P s :
  every (fun c => negb (P c)) s = true -> rstrip_by P s = s.
Proof.
  induction s as [|c s IH]; simpl; [done|].
  destruct (P c); simpl; [done|]. intros H. by rewrite IH.
Qed.

(** A string with no character to strip is its own [strip]. *)
Lemma strip_none P s :
  every (fun c => negb (P c)) s = true -> strip_by P s = s.
Proof. intros H. unfold strip_by. by rewrite lstrip_none, rstrip_none. Qed.

Lemma every_impl (P Q : ascii -> bool) s :
  (forall c, P c = true -> Q c = true) -> every P s = true -> every Q s = true.
Proof.
  intros HPQ. induction s as [|c s IH]; simpl; [done|].
  intros [Hc Hs]%andb_prop. by rewrite (HPQ _ Hc), IH.
Qed.

Lemma every_count (P : ascii -> bool) c s :
  P c = false -> every P s = true -> count c s = O.
Proof.
  intros Hc. induction s as [|d s IH]; simpl; [done|].
  intros [Hd Hs]%andb_prop. destruct (Ascii.eqb_spec d c) as [->|]; [congruence|].
  by rewrite IH.
Qed.

Lemma uint_every_digit d : every isdigit (NilEmpty.string_of_uint d) = true.
Proof. induction d; simpl; by rewrite ?IHd. Qed.

Lemma of_uint_acc_Z d k :
  Z.pos (Pos.of_uint_acc d k)
  = Z.of_N (Pos.of_uint d) + Z.pos k * 10 ^ Z.of_N (Unsigned.usize d).
Proof.
  change (Z.pos (Pos.of_uint_acc d k)) with (Z.of_N (N.pos (Pos.of_uint_acc d k))).
  rewrite Unsigned.of_uint_acc_rev, <- Unsigned.of_uint_alt.
  rewrite N2Z.inj_add, N2Z.inj_mul, N2Z.inj_pow. done.
Qed.

Lemma digits_cons c v s acc b :
  digit c = Some v -> digits (String c s) acc b = digits s (10 * acc + v) true.
Proof. intros H. simpl. by rewrite H. Qed.

Lemma digits_uint d acc :
  digits (NilEmpty.string_of_uint d) acc true
  = Some (acc * 10 ^ Z.of_N (Unsigned.usize d) + Z.of_N (Pos.of_uint d)).
Proof.
  revert acc. induction d; intros acc; simpl NilEmpty.string_of_uint;
    [ simpl; f_equal; lia | .. ];
    erewrite digits_cons by reflexivity; rewrite IHd; f_equal;
    simpl Unsigned.usize; rewrite N2Z.inj_succ, Z.pow_succ_r by lia;
    cbn [Pos.of_uint]; cbn [Z.of_N]; rewrite ?of_uint_acc_Z;
    match goal with |- context [Z.of_nat ?n] =>
      let v := eval vm_compute in (Z.of_nat n) in change (Z.of_nat n) with v end;
    ring.
Qed.

Lemma signed_uint d :
  d <> Nil -> signed (NilEmpty.string_of_uint d) = Some (Z.of_N (Pos.of_uint d)).
Proof.
  destruct d; [done|..]; intros _; simpl NilEmpty.string_of_uint;
    cbn [signed];
    erewrite digits_cons by reflexivity; rewrite digits_uint; f_equal;
    cbn [Pos.of_uint Z.of_N]; rewrite ?of_uint_acc_Z;
    match goal with |- context [Z.of_nat ?n] =>
      let v := eval vm_compute in (Z.of_nat n) in change (Z.of_nat n) with v end;
    ring.
Qed.

Lemma numeral_not_space c :
  isnumeral c = true -> negb (int_isspace c) = true.
Proof. by destruct c as [[] [] [] [] [] [] [] []]. Qed.

Lemma digit_not_colon c : isdigit c = true -> Ascii.eqb c ":" = false.
Proof. intros H. destruct (Ascii.eqb_spec c ":") as [->|]; done. Qed.

Lemma str_numeral n : every isnumeral (str n) = true.
Proof.
  assert (Hu : forall d, every isnumeral (NilZero.string_of_uint d) = true).
  { intros d. destruct d; try done; unfold NilZero.string_of_uint;
      (eapply every_impl; [|apply uint_every_digit]);
      intros c Hc; unfold isnumeral; by rewrite Hc. }
  unfold str. destruct (Z.to_int n); simpl; by rewrite ?Hu.
Qed.

Lemma str_count_colon n : count ":" (str n) = O.
Proof. by apply (every_count isnumeral), str_numeral. Qed.

Lemma strip_str n : strip_by int_isspace (str n) = str n.
Proof.
  apply strip_none. eapply every_impl; [|apply str_numeral].
  apply numeral_not_space.
Qed.

Lemma NilZero_nonnil d :
  d <> Nil -> NilZero.string_of_uint d = NilEmpty.string_of_uint d.
Proof. by destruct d. Qed.

Lemma digits_nonnil d :
  d <> Nil ->
  digits (NilEmpty.string_of_uint d) 0 false = Some (Z.of_N (Pos.of_uint d)).
Proof. intros Hn. generalize (signed_uint _ Hn). by destruct d. Qed.

(** [int(str(n)) == n]. *)
Lemma int_str n : int (str n) = Some n.
Proof.
  unfold int. rewrite strip_str. unfold str.
  rewrite <- (DecimalZ.of_to n) at 2.
  destruct n as [|p|p]; [done|..]; cbn [Z.to_int Z.of_int Z.of_uint];
    pose proof (Unsigned.to_uint_nonnil p) as Hn;
    cbn [NilZero.string_of_int]; rewrite NilZero_nonnil by done.
  - by apply signed_uint.
  - cbn [signed]. by rewrite digits_nonnil.
Qed.
End PyFacts.

(** ** MatchParser *)

Lemma append_cons c a b : String c a +:+ b = String c (a +:+ b).
Proof. reflexivity. Qed.

Lemma append_assoc a b c : (a +:+ b) +:+ c = a +:+ (b +:+ c).
Proof.
  induction a as [|d a IH]; [done|]. by rewrite !append_cons, IH.
Qed.

Lemma render_raw_line_eq m :
  render_raw_line m
  = path m +:+ String ":" (Py.str (line_nr m)
      +:+ String ":" (Py.str (col_nr m) +:+ String ":" (content m))).
Proof.
  unfold render_raw_line, render_location. cbn [Py.join].
  by rewrite !append_assoc.
Qed.

Lemma split_render_raw_line m :
  Py.count ":" (path m) = O ->
  Py.split ":" (Some 3%nat) (render_raw_line m)
  = [path m; Py.str (line_nr m); Py.str (col_nr m); content m].
Proof.
  intros Hp. rewrite render_raw_line_eq.
  rewrite split_prefix by done.
  rewrite split_prefix by apply str_count_colon.
  rewrite split_prefix by apply str_count_colon.
  by rewrite split_zero.
Qed.

Lemma count_app c a b : Py.count c (a +:+ b) = (Py.count c a + Py.count c b)%nat.
Proof.
  induction a as [|d a IH]; [done|]. rewrite append_cons. simpl. rewrite IH. lia.
Qed.

Lemma split_no_sep sep s : Py.count sep s = O -> Py.split sep None s = [s].
Proof.
  induction s as [|c s IH]; simpl; [done|].
  destruct (Ascii.eqb c sep); [done|]. intros H. by rewrite IH.
Qed.

Lemma strip_nonempty_of_char c s :
  Py.isspace c = false -> Py.count c s <> O -> Py.is_empty (Py.strip s) = false.
Proof.
  intros Hc. unfold Py.strip, Py.strip_by.
  assert (Hr : forall t, Py.count c t <> O ->
                 Py.is_empty (Py.rstrip_by Py.isspace t) = false).
  { induction t as [|d t IH]; simpl; [done|].
    destruct (Ascii.eqb_spec d c) as [->|Hne].
    - intros _. by rewrite Hc.
    - intros H. rewrite IH by done. by rewrite andb_false_r. }
  intros H. apply Hr. clear Hr.
  induction s as [|d s IH]; simpl in *; [done|].
  destruct (Ascii.eqb_spec d c) as [->|Hne].
  - rewrite Hc. simpl. by rewrite Ascii.eqb_refl.
  - destruct (Py.isspace d); [by apply IH|]. simpl.
    by destruct (Ascii.eqb_spec d c).
Qed.

Lemma parse_match_few line :
  (Py.count ":" line < 3)%nat ->
  parse_match line = inl (MalformedMatchError (TooFewSections line)).
Proof.
  intros H. unfold parse_match.
  pose proof (split_length ":" 3 line) as Hl.
  destruct (Py.split ":" (Some 3%nat) line) as [|p0 [|p1 [|p2 [|p3 t]]]];
    try done. cbn [length] in Hl. lia.
Qed.

Lemma parse_lines_app before ms rest :
  parse_lines before = inr ms ->
  parse_lines (before ++ rest)
  = match parse_lines rest with
    | inl e => inl e
    | inr ms' => inr (ms ++ ms')
    end.
Proof.
  revert ms. induction before as [|l before IH]; simpl; intros ms H.
  - injection H as <-. by destruct (parse_lines rest).
  - destruct (Py.is_empty (Py.strip l)); [by apply IH|].
    destruct (parse_match l); [done|].
    destruct (parse_lines before) as [|ms0]; [done|]. injection H as <-.
    rewrite (IH ms0) by done. by destruct (parse_lines rest).
Qed.

Lemma split_head sep n s h t :
  Py.split sep (Some (S n)) s = h :: t ->
  Py.count sep h = O
  /\ match t with
     | [] => s = h
     | _ :: _ => exists s', s = h +:+ String sep s'
                            /\ t = Py.split sep (Some n) s'
     end.
Proof.
  revert h t. induction s as [|c s IH]; intros h t.
  - by intros [= <- <-].
  - cbn [Py.split]. destruct (Ascii.eqb_spec c sep) as [->|Hne].
    + cbn [fmap option_fmap option_map Nat.pred]. intros [= <- <-].
      split; [done|].
      pose proof (split_nonnil sep (Some n) s) as Hn.
      destruct (Py.split sep (Some n) s) as [|x l] eqn:E; [done|].
      exists s. by rewrite E.
    + pose proof (split_nonnil sep (Some (S n)) s) as Hn.
      destruct (Py.split sep (Some (S n)) s) as [|h' t'] eqn:E; [done|].
      intros [= <- <-]. destruct (IH h' t' eq_refl) as [Hc Ht].
      split.
      { cbn [Py.count]. destruct (Ascii.eqb_spec c sep); [done|]. by rewrite Hc. }
      destruct t' as [|x l]; [by rewrite Ht|].
      destruct Ht as (s' & -> & Hl). exists s'. by rewrite <- Hl.
Qed.

(** What a successful parse says about the line. *)
Lemma parse_match_parts line m :
  parse_match line = inr m ->
  exists p0 p1 p2,
    line = p0 +:+ String ":" (p1 +:+ String ":" (p2 +:+ String ":" (content m)))
    /\ Py.count ":" p0 = O /\ Py.count ":" p1 = O /\ Py.count ":" p2 = O
    /\ path m = Py.strip p0
    /\ Py.int p1 = Some (line_nr m) /\ Py.int p2 = Some (col_nr m).
Proof.
  unfold parse_match.
  destruct (Py.split ":" (Some 3%nat) line) as [|p0 [|p1 [|p2 [|p3 t]]]] eqn:E;
    try done.
  destruct (Py.int p1) as [l|] eqn:E1; [|done].
  destruct (Py.int p2) as [c|] eqn:E2; [|done].
  intros [= <-]. cbn [path line_nr col_nr content].
  apply split_head in E as (H0 & s1 & -> & E).
  symmetry in E. apply split_head in E as (H1 & s2 & -> & E).
  symmetry in E. apply split_head in E as (H2 & s3 & -> & E).
  rewrite split_zero in E. injection E as -> ->.
  by exists p0, p1, p2.
Qed.

(** All the parts of a bounded split but the last have no separator. *)
Lemma split_take sep n s :
  Forall (fun part => Py.count sep part = O)
    (take n (Py.split sep (Some n) s)).
Proof.
  revert s. induction n as [|n IH]; intros s; [constructor|].
  pose proof (split_nonnil sep (Some (S n)) s) as Hn.
  destruct (Py.split sep (Some (S n)) s) as [|h t] eqn:E; [done|].
  apply split_head in E as [Hh Ht]. cbn [take]. constructor; [done|].
  destruct t as [|x l]; [rewrite take_nil; constructor|].
  destruct Ht as (s' & _ & ->). apply IH.
Qed.

(** C5. For every raw line the parser works on at most four parts: they
    joined by [:] are the line again and the first three hold no colon, so
    they are the line cut at its first three colons, and the fourth, the
    content, keeps every later colon.  Four parts give the match, or the
    failure of the first of the two numbers that is not an integer; fewer
    than four, that is a line with fewer than three colons, give
    [MalformedMatchError].  The loop of [search] hands the parser every line
    that is not blank, and the failure ends the whole parse, whatever lines
    come before (if they parse) and after: the line is not skipped. *)
Theorem parse_match_too_few_sections (line : string) :
  (exists parts : list string,
     (length parts <= 4)%nat
     /\ Py.join ":" parts = line
     /\ Forall (fun part => Py.count ":" part = O) (take 3 parts)
     /\ ((length parts < 4)%nat <-> (Py.count ":" line < 3)%nat)
     /\ parse_match line
        = match parts with
          | [p0; p1; p2; p3] =>
              match Py.int p1, Py.int p2 with
              | Some l, Some c => inr (mkMatch (Py.strip p0) l c p3)
              | Some _, None => inl (MalformedMatchError (NotAnInteger p2))
              | None, _ => inl (MalformedMatchError (NotAnInteger p1))
              end
          | _ => inl (MalformedMatchError (TooFewSections line))
          end)
  /\ ((Py.count ":" line < 3)%nat ->
      parse_match line = inl (MalformedMatchError (TooFewSections line))
      /\ forall before ms rest,
           Py.is_empty (Py.strip line) = false ->
           parse_lines before = inr ms ->
           parse_lines (before ++ line :: rest)
           = inl (MalformedMatchError (TooFewSections line))).
Proof.
  split.
  - exists (Py.split ":" (Some 3%nat) line).
    pose proof (split_length ":" 3 line) as Hlen.
    split; [apply split_length_le|].
    split; [apply split_join|].
    split; [apply split_take|].
    split; [rewrite Hlen; lia|].
    unfold parse_match.
    destruct (Py.split ":" (Some 3%nat) line)
      as [|p0 [|p1 [|p2 [|p3 [|p4 t]]]]]; try done.
    cbn [length] in Hlen. lia.
  - intros Hfew. pose proof (parse_match_few line Hfew) as Hparse.
    split; [done|].
    intros before ms rest Hblank Hbefore.
    rewrite (parse_lines_app before ms) by done.
    cbn [parse_lines]. by rewrite Hblank, Hparse.
Qed.

Lemma parse_match_too_few_sections_witness :
  parse_match "a.py:2:oops"
  = inl (MalformedMatchError (TooFewSections "a.py:2:oops"))
  /\ parse_lines ["a.py:1:1:x"; "a.py:2:oops"; "a.py:3:1:y"]
     = inl (MalformedMatchError (TooFewSections "a.py:2:oops"))
  /\ exists parts,
       Py.join ":" parts = "src/a.py:10:3:def foo(): pass"
       /\ Forall (fun part => Py.count ":" part = O) (take 3 parts)
       /\ parse_match "src/a.py:10:3:def foo(): pass"
          = inr (mkMatch "src/a.py" 10 3 "def foo(): pass").
Proof.
  destruct (parse_match_too_few_sections "a.py:2:oops")
    as [_ Hfew].
  destruct Hfew as [Hparse Hloop]; [vm_compute; lia|].
  split; [exact Hparse|].
  split.
  { apply (Hloop ["a.py:1:1:x"] [mkMatch "a.py" 1 1 "x"] ["a.py:3:1:y"]);
      reflexivity. }
  destruct (parse_match_too_few_sections "src/a.py:10:3:def foo(): pass")
    as [(parts & _ & Hjoin & Hcolons & _ & _) _].
  exists parts. split; [exact Hjoin|]. split; [exact Hcolons|]. reflexivity.
Defined.

(** With three colons or more the parser gets exactly four parts. *)
Lemma split_four line :
  (3 <= Py.count ":" line)%nat ->
  length (Py.split ":" (Some 3%nat) line) = 4%nat.
Proof. intros H. rewrite split_length. lia. Qed.

(** C3, as stated, fails: a path with a colon in it (a drive letter) is cut
    at that colon, and the parser then reads the rest of the path as the
    line number. *)
Lemma parse_render_colon_path :
  let m := mkMatch "C:\src\Main.hs" 10 3 "main = do" in
  Py.count Py.LF (content m) = O
  /\ render_raw_line m = "C:\src\Main.hs:10:3:main = do"
  /\ parse_match (render_raw_line m)
     = inl (MalformedMatchError (NotAnInteger "\src\Main.hs"))
  /\ parse_match (render_raw_line m) <> inr m.
Proof. repeat split; done. Qed.

(** Nor does a path with blanks around it come back: the parser strips it. *)
Example parse_render_padded_path :
  let m := mkMatch " a.hs" 10 3 "x" in
  parse_match (render_raw_line m) = inr (mkMatch "a.hs" 10 3 "x").
Proof. reflexivity. Qed.

(** C3, amended. For a match whose content has no line feed and whose path
    has no colon and is its own [strip], parsing the rendered raw line
    [path:line_nr:col_nr:content] gives the match back; and if the path has
    no line feed either, the rendered line is one line of output that the
    loop of [search] parses to that single match. *)
Theorem parse_render_roundtrip (m : Match) :
  Py.count Py.LF (content m) = O ->
  Py.count ":" (path m) = O ->
  Py.strip (path m) = path m ->
  parse_match (render_raw_line m) = inr m
  /\ (Py.count Py.LF (path m) = O -> parse_output (render_raw_line m) = inr [m]).
Proof.
  intros Hnl Hcolon Hstrip.
  assert (Hparse : parse_match (render_raw_line m) = inr m).
  { unfold parse_match. rewrite split_render_raw_line by done.
    rewrite !int_str, Hstrip. by destruct m. }
  split; [done|]. intros Hpnl.
  assert (Hone : Py.count Py.LF (render_raw_line m) = O).
  { rewrite render_raw_line_eq. rewrite count_app. simpl.
    rewrite count_app. simpl. rewrite count_app. simpl.
    rewrite Hpnl, Hnl.
    rewrite !(every_count Py.isnumeral Py.LF _ eq_refl (str_numeral _)). done. }
  unfold parse_output. rewrite split_no_sep by done. cbn [parse_lines].
  rewrite Hparse.
  rewrite (strip_nonempty_of_char ":"); [done..|].
  rewrite render_raw_line_eq, count_app. simpl. lia.
Qed.

Lemma parse_render_roundtrip_witness :
  parse_match "src/a.py:12:1:    return 1: ok"
  = inr (mkMatch "src/a.py" 12 1 "    return 1: ok").
Proof.
  apply (parse_render_roundtrip (mkMatch "src/a.py" 12 1 "    return 1: ok"));
    reflexivity.
Defined.

(** ** ProcessSearchRunner *)

Lemma strip_blank s : Py.every Py.isspace s = true -> Py.strip s = EmptyString.
Proof.
  unfold Py.strip, Py.strip_by. induction s as [|c s IH]; simpl; [done|].
  intros [Hc Hs]%andb_prop. rewrite Hc. by apply IH.
Qed.

Lemma rstrip_every s :
  Py.rstrip_by Py.isspace s = EmptyString -> Py.every Py.isspace s = true.
Proof.
  induction s as [|c s IH]; simpl; [done|].
  destruct (Py.isspace c); simpl; [|done].
  destruct (Py.rstrip_by Py.isspace s); [by intros _; apply IH | done].
Qed.

Lemma lstrip_suffix s :
  Py.every Py.isspace (Py.lstrip_by Py.isspace s) = true ->
  Py.every Py.isspace s = true.
Proof.
  induction s as [|c s IH]; simpl; [done|].
  destruct (Py.isspace c) eqn:E; simpl; [done|]. by rewrite E.
Qed.

(** A string strips to nothing exactly when it is empty or all whitespace. *)
Lemma strip_empty_iff s :
  Py.strip s = EmptyString <-> Py.every Py.isspace s = true.
Proof.
  split; [|apply strip_blank].
  unfold Py.strip, Py.strip_by. intros H. by apply lstrip_suffix, rstrip_every.
Qed.

Lemma is_empty_true s : Py.is_empty s = true <-> s = EmptyString.
Proof. by destruct s. Qed.

Lemma is_empty_false s : Py.is_empty s = false <-> s <> EmptyString.
Proof. by destruct s. Qed.

Lemma parse_match_error line e :
  parse_match line = inl e -> exists why, e = MalformedMatchError why.
Proof.
  unfold parse_match.
  destruct (Py.split ":" (Some 3%nat) line) as [|p0 [|p1 [|p2 [|p3 t]]]];
    try (intros [= <-]; eauto).
  destruct (Py.int p1); [|intros [= <-]; eauto].
  destruct (Py.int p2); [done|intros [= <-]; eauto].
Qed.

Lemma parse_lines_error lines e :
  parse_lines lines = inl e -> exists why, e = MalformedMatchError why.
Proof.
  induction lines as [|l lines IH]; simpl; [done|].
  destruct (Py.is_empty (Py.strip l)); [done|].
  destruct (parse_match l) eqn:E.
  - intros [= <-]. by eapply parse_match_error.
  - destruct (parse_lines lines); [|done]. intros [= <-]. by apply IH.
Qed.

(** Parsing never fails with the engine's error. *)
Lemma parse_output_not_engine_error output :
  ~ engine_error (parse_output output).
Proof.
  intros [e He]. apply parse_lines_error in He as [why Hw]. done.
Qed.

Section SearchFacts.

Variable settings : Settings.
Variable subprocess_run :
  list event -> list string -> string -> option CompletedProcess.

Local Abbreviation search := (search settings subprocess_run).
Local Abbreviation command := (command settings).

Lemma search_empty query folders log :
  Py.strip query = EmptyString -> search query folders log = (inr [], log).
Proof. intros H. unfold search. by rewrite H. Qed.

(** One completed run of the engine: what [search] makes of it. *)
Lemma search_completed query cwd folders log p :
  Py.strip query <> EmptyString ->
  subprocess_run (log ++ [Printed ("Running: "
                    +:+ Py.join " " (command query (cwd :: folders)))])
    (command query (cwd :: folders)) cwd = Some p ->
  search query (cwd :: folders) log
  = (if is_error settings p
     then inl (SearchEngineError (Py.strip (stderr p)))
     else parse_output (Py.strip (stdout p)),
     log ++ [Printed ("Running: "
               +:+ Py.join " " (command query (cwd :: folders)));
             Ran (command query (cwd :: folders)) cwd 10]).
Proof.
  intros Hq Hrun. unfold search.
  apply is_empty_false in Hq. rewrite Hq.
  unfold mbind, M_bind, emit, run.
  rewrite Hrun. rewrite <- app_assoc. simpl.
  by destruct (is_error settings p).
Qed.

Lemma engine_error_inl {A} e :
  @engine_error A (inl (SearchEngineError e)).
Proof. by exists e. Qed.

(** C2, amended. For a run of the engine that completes: with an engine of
    the allow-list [search] fails with [SearchEngineError] exactly when the
    exit code is nonzero and the captured standard error, once stripped of
    surrounding whitespace, is not empty; with any other engine, exactly
    when the exit code is nonzero.  When it does not fail so, the result is
    the parse of the stripped standard output; in particular for exit
    code 2 and an empty standard error with an allow-listed engine. *)
Theorem search_error_policy (query cwd : string) (folders : list string)
    (log : list event) (p : CompletedProcess) :
  Py.strip query <> EmptyString ->
  subprocess_run (log ++ [Printed ("Running: "
                    +:+ Py.join " " (command query (cwd :: folders)))])
    (command query (cwd :: folders)) cwd = Some p ->
  let r := fst (search query (cwd :: folders) log) in
  (get_engine_name settings ∈ engines_needing_error_output ->
     (engine_error r
      <-> returncode p <> 0 /\ Py.strip (stderr p) <> EmptyString))
  /\ (get_engine_name settings ∉ engines_needing_error_output ->
     (engine_error r <-> returncode p <> 0))
  /\ (~ engine_error r -> r = parse_output (Py.strip (stdout p)))
  /\ (get_engine_name settings ∈ engines_needing_error_output ->
      returncode p = 2 -> stderr p = EmptyString ->
      r = parse_output (Py.strip (stdout p))).
Proof.
  intros Hq Hrun r. subst r. rewrite (search_completed _ _ _ _ p) by done.
  cbn [fst]. unfold is_error.
  destruct (Z.eqb_spec (returncode p) 0) as [Hz|Hz];
    destruct (Py.is_empty (Py.strip (stderr p))) eqn:He;
    [apply is_empty_true in He|apply is_empty_false in He
    |apply is_empty_true in He|apply is_empty_false in He];
    case_bool_decide as Hin; cbn [negb andb];
    (repeat split; try done; try tauto;
       try (intros; exfalso; by eapply parse_output_not_engine_error);
       try (intros; apply engine_error_inl);
       try (intros []; done || tauto);
       try (intros Hn; exfalso; apply Hn, engine_error_inl)).
  all: try (intros _ H2 Hs; rewrite Hs in He; done).
Qed.

(** C9. With an engine of the allow-list, a run with a nonzero exit code
    whose standard error is only whitespace is a success: [search] gives
    the parse of the stripped standard output, not [SearchEngineError].
    And whenever [search] raises [SearchEngineError], with any engine, the
    error carries the stripped standard error. *)
Theorem search_whitespace_stderr (query cwd : string)
    (folders : list string) (log : list event) (p : CompletedProcess) :
  Py.strip query <> EmptyString ->
  subprocess_run (log ++ [Printed ("Running: "
                    +:+ Py.join " " (command query (cwd :: folders)))])
    (command query (cwd :: folders)) cwd = Some p ->
  let r := fst (search query (cwd :: folders) log) in
  (get_engine_name settings ∈ engines_needing_error_output ->
   returncode p <> 0 ->
   Py.every Py.isspace (stderr p) = true ->
   r = parse_output (Py.strip (stdout p)) /\ ~ engine_error r)
  /\ (forall e, r = inl (SearchEngineError e) -> e = Py.strip (stderr p)).
Proof.
  intros Hq Hrun r. subst r. rewrite (search_completed _ _ _ _ p) by done.
  cbn [fst]. split.
  - intros Hin Hcode Hblank. unfold is_error.
    rewrite bool_decide_eq_true_2 by done.
    rewrite (strip_blank _ Hblank). cbn [Py.is_empty negb].
    rewrite andb_false_r. split; [done|].
    apply parse_output_not_engine_error.
  - intros e. destruct (is_error settings p).
    + by intros [= <-].
    + intros He. exfalso.
      apply (parse_output_not_engine_error (Py.strip (stdout p))).
      by exists e.
Qed.

(** C7. A query that strips to nothing makes [search] return no match and
    leave the log of events as it was, whatever the outside world would
    answer: no process is run.  So does the plain search mode built on
    it. *)
Theorem search_empty_query (query : string) (folders : list string)
    (log : list event) :
  Py.strip query = EmptyString ->
  search query folders log = (inr [], log)
  /\ search_and_display_matches settings subprocess_run "plain" query
       folders log = (inr [], log).
Proof.
  intros Hq. split; [by apply search_empty|].
  unfold search_and_display_matches. cbn [String.eqb Ascii.eqb Bool.eqb].
  unfold mbind, M_bind. by rewrite search_empty.
Qed.

(** C4. A query that is empty or only whitespace makes the definition
    search fail with [EmptyQueryError], the failure of [query[0]] on the
    trimmed query, before anything is printed or run. *)
Theorem haskell_empty_query (query : string) (folders : list string)
    (log : list event) :
  Py.every Py.isspace query = true ->
  haskell_defn_queries query = inl EmptyQueryError
  /\ search_for_haskell_defns settings subprocess_run query folders log
     = (inl EmptyQueryError, log)
  /\ search_and_display_matches settings subprocess_run "haskell" query
       folders log = (inl EmptyQueryError, log).
Proof.
  intros Hq. apply strip_blank in Hq.
  assert (Hplan : haskell_defn_queries query = inl EmptyQueryError)
    by (unfold haskell_defn_queries; by rewrite Hq).
  assert (Hrun : search_for_haskell_defns settings subprocess_run query
                   folders log = (inl EmptyQueryError, log)).
  { unfold search_for_haskell_defns, mbind, M_bind, lift. by rewrite Hplan. }
  repeat split; [done..|].
  unfold search_and_display_matches. cbn [String.eqb Ascii.eqb Bool.eqb].
  unfold mbind at 1. unfold M_bind at 1. by rewrite Hrun.
Qed.

End SearchFacts.

(** C2, as stated, fails: with ripgrep, exit code 1 and a standard error
    of one blank, the exit code is nonzero and the captured text is not
    empty, yet [search] succeeds (here with no match). *)
Lemma search_blank_stderr_is_success :
  let settings := mkSettings "ripgrep" "rg" ["--vimgrep"] false in
  let p := mkCompleted 1 EmptyString " " in
  let world := fun _ _ _ => Some p in
  get_engine_name settings ∈ engines_needing_error_output
  /\ returncode p <> 0 /\ stderr p <> EmptyString
  /\ fst (search settings world "foo" ["/src"] []) = inr []
  /\ ~ engine_error (fst (search settings world "foo" ["/src"] [])).
Proof.
  intros settings p world.
  assert (Hr : fst (search settings world "foo" ["/src"] []) = inr [])
    by (by vm_compute).
  split; [by vm_compute|]. split; [done|]. split; [done|]. split; [done|].
  rewrite Hr. by intros [e He].
Qed.

Lemma search_error_policy_witness :
  let settings := mkSettings "ripgrep" "rg" ["--vimgrep"] false in
  let p := mkCompleted 2 ("src/a.py:10:3:def foo():" +:+ Py.nl) EmptyString in
  fst (search settings (fun _ _ _ => Some p) "foo" ["/src"] [])
  = parse_output "src/a.py:10:3:def foo():".
Proof.
  intros settings p.
  apply (search_error_policy settings (fun _ _ _ => Some p)
           "foo" "/src" [] [] p).
  - discriminate.
  - reflexivity.
  - by vm_compute.
  - reflexivity.
  - reflexivity.
Defined.

Lemma search_whitespace_stderr_witness :
  let settings := mkSettings "the_silver_searcher" "ag" ["--vimgrep"] false in
  let p := mkCompleted 1 "a.hs:2:1:x = 1" ("  " +:+ Py.nl) in
  fst (search settings (fun _ _ _ => Some p) "x" ["/src"] [])
  = inr [mkMatch "a.hs" 2 1 "x = 1"].
Proof.
  intros settings p.
  apply (search_whitespace_stderr settings (fun _ _ _ => Some p)
           "x" "/src" [] [] p).
  - discriminate.
  - reflexivity.
  - by vm_compute.
  - discriminate.
  - reflexivity.
Defined.

Lemma search_empty_query_witness :
  let settings := mkSettings "ripgrep" "rg" ["--vimgrep"] false in
  let world := fun _ _ _ => Some (mkCompleted 0 "a.hs:2:1:x" EmptyString) in
  search settings world "   " ["/src"] [] = (inr [], []).
Proof.
  intros settings world.
  apply (search_empty_query settings world "   " ["/src"] []).
  reflexivity.
Defined.

Lemma haskell_empty_query_witness :
  let settings := mkSettings "ripgrep" "rg" ["--vimgrep"] false in
  let world := fun _ _ _ => Some (mkCompleted 0 "a.hs:2:1:x" EmptyString) in
  search_for_haskell_defns settings world "  " ["/src"] []
  = (inl EmptyQueryError, []).
Proof.
  intros settings world.
  apply (haskell_empty_query settings world "  " ["/src"] []).
  reflexivity.
Defined.

(** ** QueryPlanner *)

(** The test of the code, [isalpha] and equal to its own [upper], holds
    for the uppercase letters and for the two letters that have no uppercase
    form, the ordinal indicators 0xaa and 0xba. *)
Lemma starts_type_name_spec c :
  starts_type_name c
  = Py.isalpha c && Py.isupper c
    || (Py.code c =? 170)%nat || (Py.code c =? 186)%nat.
Proof. destruct c as [[] [] [] [] [] [] [] []]; reflexivity. Qed.

(** After trimming, a query whose first character is an uppercase letter
    gets the four sub-queries labelled Module, Type definition, Class
    definition and Constructor, in that order; a query whose first character
    is anything else, the two ordinal indicators apart, gets the three
    labelled Value type, Value definition and Record getter, in that
    order. *)
Lemma haskell_defn_queries_labels (query : string) (c : ascii)
    (rest : string) :
  Py.strip query = String c rest ->
  Py.code c <> 170%nat -> Py.code c <> 186%nat ->
  (Py.isalpha c && Py.isupper c = true ->
   haskell_defn_queries query = inr (type_queries (Py.strip query))
   /\ map fst (type_queries (Py.strip query))
      = ["Module"; "Type definition"; "Class definition"; "Constructor"])
  /\ (Py.isalpha c && Py.isupper c = false ->
   haskell_defn_queries query = inr (value_queries (Py.strip query))
   /\ map fst (value_queries (Py.strip query))
      = ["Value type"; "Value definition"; "Record getter"]).
Proof.
  intros Hq Hfem Hmasc. unfold haskell_defn_queries. rewrite Hq.
  rewrite starts_type_name_spec.
  apply Nat.eqb_neq in Hfem, Hmasc. rewrite Hfem, Hmasc, !orb_false_r.
  split; intros ->; by split.
Qed.

Example haskell_defn_queries_Foo_foo :
  haskell_defn_queries " Foo "
  = inr [ ("Module", "^module +(Foo)\s");
          ("Type definition",
           "^(data|newtype|type)\s+Foo(\s+[a-z]+)*\s+(=|where)\s");
          ("Class definition",
           "^class\s+([a-zA-Z\s.\(\),]+=>\s+)?Foo(\s+[a-z]+)*\s+where\s");
          ("Constructor",
           "((data|newtype) .+\s* =\s* Foo\s)|(\|\s* Foo\s)") ]
  /\ haskell_defn_queries "foo"
     = inr [ ("Value type", "^ *(foo)\s+::\s+.");
             ("Value definition", "^ *(foo)\s+[^=$]*\s=\s");
             ("Record getter", " +[{,] +(foo)\s+::\s+") ].
Proof.
  split.
  - apply (haskell_defn_queries_labels " Foo " "F" "oo"); done.
  - apply (haskell_defn_queries_labels "foo" "f" "oo"); done.
Qed.

(** C6 on the query made of the feminine ordinal indicator (0xaa) and [x]:
    the first character is a letter and is not uppercase, so the query
    should get the three value sub-queries; the test of the code holds for
    it, because [upper] leaves it alone, and the query gets the four type
    sub-queries. *)
Theorem haskell_defn_queries_ordinal :
  let c := ascii_of_nat 170 in
  let query := String c "x" in
  Py.strip query = query
  /\ Py.isalpha c = true /\ Py.isupper c = false /\ Py.upper c = [Py.code c]
  /\ haskell_defn_queries query = inr (type_queries query)
  /\ match haskell_defn_queries query with
     | inr queries =>
         map fst queries
         = ["Module"; "Type definition"; "Class definition"; "Constructor"]
     | inl _ => False
     end.
Proof. repeat split; reflexivity. Qed.

(** Run against an engine that finds nothing, the definition search runs
    its sub-queries one after the other, in the order of the plan. *)
Example haskell_runs_in_order :
  let settings := mkSettings "ripgrep" "rg" [] false in
  let world := fun _ _ _ => Some (mkCompleted 1 EmptyString EmptyString) in
  snd (search_for_haskell_defns settings world "foo" ["/src"] [])
  = [ Printed "Running: rg ^ *(foo)\s+::\s+. /src";
      Ran ["rg"; "^ *(foo)\s+::\s+."; "/src"] "/src" 10;
      Printed "Running: rg ^ *(foo)\s+[^=$]*\s=\s /src";
      Ran ["rg"; "^ *(foo)\s+[^=$]*\s=\s"; "/src"] "/src" 10;
      Printed "Running: rg  +[{,] +(foo)\s+::\s+ /src";
      Ran ["rg"; " +[{,] +(foo)\s+::\s+"; "/src"] "/src" 10 ].
Proof. reflexivity. Qed.

(** ** AdjacentMatchFilter *)

Lemma filter_none {A} (f : A -> bool) l :
  (forall x, In x l -> f x = false) -> List.filter f l = [].
Proof.
  induction l as [|x l IH]; intros H; simpl; [done|].
  rewrite (H x) by (by left). apply IH. intros y Hy. apply H. by right.
Qed.

Lemma filter_all {A} (f : A -> bool) l :
  (forall x, In x l -> f x = true) -> List.filter f l = l.
Proof.
  induction l as [|x l IH]; intros H; simpl; [done|].
  rewrite (H x) by (by left). f_equal. apply IH. intros y Hy. apply H. by right.
Qed.

Lemma skipped_same_line ign prev this :
  path this = path prev -> line_nr this = line_nr prev ->
  skipped ign prev this = true.
Proof.
  intros Hp Hl. unfold skipped.
  rewrite Hp, String.eqb_refl, Hl, Z.eqb_refl. done.
Qed.

Lemma skipped_next_line ign prev this :
  path this = path prev -> line_nr this = line_nr prev + 1 ->
  skipped ign prev this = ign.
Proof.
  intros Hp Hl. unfold skipped.
  rewrite Hp, String.eqb_refl, Hl, Z.eqb_refl.
  destruct (Z.eqb_spec (line_nr prev + 1) (line_nr prev)); [lia|].
  by destruct ign.
Qed.

Lemma skipped_fresh ign prev this :
  path prev <> path this
  \/ (line_nr prev <> line_nr this
      /\ (ign = true -> line_nr prev <> line_nr this - 1)) ->
  skipped ign prev this = false.
Proof.
  intros H. unfold skipped.
  destruct (String.eqb_spec (path this) (path prev)) as [Hp|Hp]; [|done].
  destruct H as [H|[Hl Hadj]]; [congruence|].
  destruct (Z.eqb_spec (line_nr this) (line_nr prev)); [lia|].
  destruct ign; [|done]. simpl.
  destruct (Z.eqb_spec (line_nr this) (line_nr prev + 1)); [|done].
  specialize (Hadj eq_refl). lia.
Qed.

(** The first match of a run that nothing hides is yielded. *)
Lemma yielded_fresh ms ign p m :
  ms !! p = Some m ->
  starts_fresh ms ign p (path m) (line_nr m) ->
  yielded ms ign p = true.
Proof.
  intros Hm Hfresh. destruct p as [|q]; simpl.
  - rewrite Hm. by apply bool_decide_eq_true_2.
  - destruct (ms !! q) as [prev|] eqn:Hq.
    + rewrite Hm. rewrite skipped_fresh; [done|]. by apply Hfresh.
    + apply lookup_ge_None in Hq. apply lookup_lt_Some in Hm. lia.
Qed.

(** Inside a run, a match is yielded exactly when adjacent lines are not
    ignored. *)
Lemma yielded_inside_run ms ign p k run_path n j :
  run_at ms p k run_path n -> (0 < j < k)%nat ->
  yielded ms ign (p + j) = negb ign.
Proof.
  intros Hrun Hj.
  destruct (Hrun (j - 1)%nat) as (prev & Hprev & Hpp & Hpl); [lia|].
  destruct (Hrun j) as (this & Hthis & Htp & Htl); [lia|].
  replace (p + j)%nat with (S (p + (j - 1))) in * by lia.
  simpl. rewrite Hprev, Hthis. f_equal.
  apply skipped_next_line; [congruence|]. lia.
Qed.

(** C1, as stated, fails: a run that comes right after a match of the same
    path and of the line number the run starts with loses its first match
    too.  Here the run is at indices 1 and 2: with [ignore_adjacents] none
    of its matches is yielded, without it only the second one. *)
Lemma run_after_same_line :
  let ms := [mkMatch "a.hs" 5 1 "x y"; mkMatch "a.hs" 5 3 "x y";
             mkMatch "a.hs" 6 1 "z"] in
  run_at ms 1 2 "a.hs" 5
  /\ List.filter (yielded ms true) (seq 1 2) = []
  /\ List.filter (yielded ms false) (seq 1 2) = [2%nat]
  /\ remove_similar_matches ms true = [mkMatch "a.hs" 5 1 "x y"]
  /\ remove_similar_matches ms false
     = [mkMatch "a.hs" 5 1 "x y"; mkMatch "a.hs" 6 1 "z"].
Proof.
  intros ms. split; [|by repeat split].
  intros j Hj. destruct j as [|[|j]]; [| |lia].
  - by exists (mkMatch "a.hs" 5 3 "x y").
  - by exists (mkMatch "a.hs" 6 1 "z").
Qed.

(** C1, amended. Take a run of [k >= 1] consecutive input matches with one
    path and the line numbers [n .. n + k - 1], such that the run starts the
    input or the match before it has another path or a line number that is
    neither [n] nor, with [ignore_adjacents], [n - 1].  With
    [ignore_adjacents] the filter yields exactly one match of the run, its
    first; without, it yields all [k]. *)
Theorem run_collapses (ms : list Match) (p k : nat) (run_path : string)
    (n : Z) :
  (1 <= k)%nat ->
  run_at ms p k run_path n ->
  (starts_fresh ms true p run_path n ->
   List.filter (yielded ms true) (seq p k) = [p])
  /\ (starts_fresh ms false p run_path n ->
   List.filter (yielded ms false) (seq p k) = seq p k).
Proof.
  intros Hk Hrun.
  destruct (Hrun O) as (m & Hm & Hmp & Hml); [lia|].
  rewrite Nat.add_0_r in Hm. rewrite Z.add_0_r in Hml.
  destruct k as [|k]; [lia|]. cbn [seq List.filter].
  split; intros Hfresh.
  - rewrite (yielded_fresh ms true p m) by (by rewrite ?Hmp, ?Hml).
    f_equal. apply filter_none. intros i [Hlo Hhi]%in_seq.
    replace i with (p + (i - p))%nat by lia.
    rewrite (yielded_inside_run ms true p (S k) run_path n); [done..|lia].
  - rewrite (yielded_fresh ms false p m) by (by rewrite ?Hmp, ?Hml).
    f_equal. apply filter_all. intros i [Hlo Hhi]%in_seq.
    replace i with (p + (i - p))%nat by lia.
    rewrite (yielded_inside_run ms false p (S k) run_path n); [done..|lia].
Qed.

Lemma run_collapses_witness :
  let ms := [mkMatch "a.hs" 3 1 "x"; mkMatch "b.hs" 4 1 "data T";
             mkMatch "b.hs" 5 3 "= A"; mkMatch "b.hs" 6 3 "| B";
             mkMatch "b.hs" 9 1 "y"] in
  List.filter (yielded ms true) (seq 1 3) = [1%nat]
  /\ List.filter (yielded ms false) (seq 1 3) = [1; 2; 3]%nat.
Proof.
  intros ms.
  assert (Hrun : run_at ms 1 3 "b.hs" 4).
  { intros j Hj. destruct j as [|[|[|j]]]; [| | |lia]; eexists; by repeat split. }
  assert (Hfresh : forall ign, starts_fresh ms ign 1 "b.hs" 4).
  { intros ign prev [= <-]. by left. }
  split.
  - apply (run_collapses ms 1 3 "b.hs" 4); [lia | exact Hrun | apply Hfresh].
  - apply (run_collapses ms 1 3 "b.hs" 4); [lia | exact Hrun | apply Hfresh].
Defined.

Lemma omap_filter {A B} (f : A -> bool) (g : A -> option B) l :
  omap (fun i => if f i then g i else None) l = omap g (List.filter f l).
Proof.
  induction l as [|x l IH]; [done|]. cbn [List.filter].
  destruct (f x) eqn:E; cbn; rewrite ?E, IH; done.
Qed.

(** The output of the filter is the input matches at the yielded indices,
    in order. *)
Lemma remove_similar_matches_yielded ms ign :
  remove_similar_matches ms ign
  = omap (fun i => ms !! i) (List.filter (yielded ms ign) (seq 0 (length ms))).
Proof.
  unfold remove_similar_matches. rewrite omap_filter.
  destruct ms as [|first rest]; [done|].
  replace (length (first :: rest) - 1)%nat with (length rest)
    by (cbn [length]; lia).
  cbn [length seq List.filter].
  by change (yielded (first :: rest) ign 0) with true.
Qed.

Lemma yielded_after_index ign pre m rest :
  omap (fun i => (pre ++ m :: rest) !! i)
    (List.filter (yielded (pre ++ m :: rest) ign)
       (seq (S (length pre)) (length rest)))
  = yielded_after ign m rest.
Proof.
  revert pre m. induction rest as [|this rest IH]; intros pre m; [done|].
  cbn [length seq List.filter yielded_after].
  assert (Hprev : (pre ++ m :: this :: rest) !! length pre = Some m)
    by (by apply list_lookup_middle).
  assert (Hthis : (pre ++ m :: this :: rest) !! S (length pre) = Some this).
  { replace (pre ++ m :: this :: rest) with ((pre ++ [m]) ++ this :: rest)
      by (by rewrite <- app_assoc).
    apply list_lookup_middle. rewrite length_app. simpl. lia. }
  specialize (IH (pre ++ [m]) this).
  rewrite <- app_assoc in IH. cbn [app] in IH.
  rewrite length_app in IH. cbn [length] in IH.
  rewrite Nat.add_1_r in IH.
  cbn [yielded]. rewrite Hprev, Hthis.
  destruct (skipped ign m this); cbn [negb app]; [exact IH|].
  change (omap ?f (?x :: ?l))
    with (match f x with Some y => y :: omap f l | None => omap f l end).
  cbv beta. rewrite Hthis. by f_equal.
Qed.

(** The pass over indices is the pass that carries the previous match. *)
Lemma remove_similar_matches_cons ign m rest :
  remove_similar_matches (m :: rest) ign = m :: yielded_after ign m rest.
Proof.
  rewrite remove_similar_matches_yielded. cbn [length seq List.filter].
  change (yielded (m :: rest) ign 0) with true. cbv iota.
  change (omap ?f (?x :: ?l))
    with (match f x with Some y => y :: omap f l | None => omap f l end).
  cbv beta. change ((m :: rest) !! O) with (Some m). cbv iota. f_equal.
  apply (yielded_after_index ign [] m rest).
Qed.

(** The scenario of the plugin's description: four parsed matches, the exact
    duplicate of line 10 goes, line 12 and the other file stay. *)
Example plain_scenario :
  let output :=
    "src/a.py:10:3:def foo():" +:+ Py.nl +:+ "src/a.py:10:3:def foo():"
      +:+ Py.nl +:+ "src/a.py:12:1:    return 1" +:+ Py.nl
      +:+ "src/b.py:5:2:import foo" +:+ Py.nl in
  let settings := mkSettings "ripgrep" "rg" ["--vimgrep"] false in
  let world := fun _ _ _ => Some (mkCompleted 0 output EmptyString) in
  fst (search_and_display_matches settings world "plain" "foo" ["/src"] [])
  = inr [mkMatch "src/a.py" 10 3 "def foo():";
         mkMatch "src/a.py" 12 1 "    return 1";
         mkMatch "src/b.py" 5 2 "import foo"].
Proof. reflexivity. Qed.

(** C8, as stated, fails: of three matches in a row on one line of one
    file, the second and the third are adjacent with equal path and line
    number, and neither is yielded, whatever [ignore_adjacents] is. *)
Lemma same_line_triple :
  let m1 := mkMatch "a.py" 7 5 "foo(foo(foo))" in
  let m2 := mkMatch "a.py" 7 9 "foo(foo(foo))" in
  let ms := [mkMatch "a.py" 7 1 "foo(foo(foo))"; m1; m2] in
  ms !! 1%nat = Some m1 /\ ms !! 2%nat = Some m2
  /\ path m1 = path m2 /\ line_nr m1 = line_nr m2
  /\ forall ign,
       yielded ms ign 1 = false /\ yielded ms ign 2 = false
       /\ remove_similar_matches ms ign = [mkMatch "a.py" 7 1 "foo(foo(foo))"].
Proof. repeat split; by destruct ign. Qed.

(** C8, amended. Of two matches adjacent in the input with equal path and
    line number, the later one is never yielded, whatever
    [ignore_adjacents] is.  The earlier one is yielded, so that exactly one
    of the two is, when it is the first input match or the match before it
    has another path or a line number that is neither the same nor, with
    [ignore_adjacents], the one before; in particular when the two are the
    whole input. *)
Theorem same_line_pair (ms : list Match) (i : nat) (m1 m2 : Match)
    (ign : bool) :
  ms !! i = Some m1 ->
  ms !! S i = Some m2 ->
  path m1 = path m2 ->
  line_nr m1 = line_nr m2 ->
  yielded ms ign (S i) = false
  /\ (starts_fresh ms ign i (path m1) (line_nr m1) ->
      yielded ms ign i = true
      /\ List.filter (yielded ms ign) [i; S i] = [i])
  /\ remove_similar_matches [m1; m2] ign = [m1].
Proof.
  intros H1 H2 Hp Hl.
  assert (Hskip : skipped ign m1 m2 = true)
    by (by apply skipped_same_line).
  assert (Hlater : yielded ms ign (S i) = false)
    by (cbn [yielded]; by rewrite H1, H2, Hskip).
  split; [done|]. split.
  - intros Hfresh. pose proof (yielded_fresh ms ign i m1 H1 Hfresh) as Hy.
    split; [done|]. cbn [List.filter]. by rewrite Hy, Hlater.
  - rewrite remove_similar_matches_cons. cbn [yielded_after].
    by rewrite Hskip.
Qed.

Lemma same_line_pair_witness :
  let m1 := mkMatch "src/a.py" 10 3 "def foo(): foo" in
  let m2 := mkMatch "src/a.py" 10 12 "def foo(): foo" in
  let ms := [mkMatch "src/a.py" 9 1 "# foo"; m1; m2] in
  yielded ms false 2 = false
  /\ yielded ms false 1 = true
  /\ List.filter (yielded ms false) [1; 2]%nat = [1%nat]
  /\ remove_similar_matches [m1; m2] false = [m1].
Proof.
  intros m1 m2 ms.
  destruct (same_line_pair ms 1 m1 m2 false)
    as (Hlater & Hearlier & Hpair); [reflexivity..|].
  destruct Hearlier as [Hy Hone].
  { intros prev [= <-]. right. split; [done|]. intros [=]. }
  repeat split; assumption.
Defined.

(** ** ResultPresenter *)

Module RenderFacts.
Import Render.

(** The matches a grouping refers to. *)
Lemma append_at_locs v l groups x :
  x ∈ concat (map snd (append_at v l groups))
  <-> x = l \/ x ∈ concat (map snd groups).
Proof.
  induction groups as [|[p ls] groups IH]; simpl.
  - rewrite list_elem_of_singleton, elem_of_nil. tauto.
  - destruct (decide (p = v)); simpl.
    + rewrite !elem_of_app, list_elem_of_singleton. tauto.
    + rewrite !elem_of_app, IH. tauto.
Qed.

Lemma pop_path_ok h l d v :
  h !! l = Some d -> d !! "path" = Some v ->
  pop l "path" h = (inr v, <[l := delete "path" d]> h).
Proof. intros Hl Hv. unfold pop. by rewrite Hl, Hv. Qed.

(** The grouping loop on distinct dicts that all have a path: it ends,
    every dict of the list has lost its path and nothing else, every other
    dict is as before. *)
Lemma group_ok matches : forall acc (h : store),
  NoDup matches ->
  (forall l, l ∈ matches ->
     exists d, h !! l = Some d /\ is_Some (d !! "path")) ->
  exists groups h',
    group matches acc h = (inr groups, h')
    /\ (forall l, l ∈ matches ->
          exists d, h !! l = Some d /\ h' !! l = Some (delete "path" d))
    /\ (forall l, l ∉ matches -> h' !! l = h !! l)
    /\ (forall x, x ∈ concat (map snd groups)
          <-> x ∈ matches \/ x ∈ concat (map snd acc)).
Proof.
  induction matches as [|m rest IH]; intros acc h Hnd Hall.
  - exists acc, h. repeat split; try done.
    + intros l Hl. by apply elem_of_nil in Hl.
    + intros Hx. by right.
    + intros [Hx|Hx]; [by apply elem_of_nil in Hx | done].
  - apply NoDup_cons in Hnd as [Hm Hnd].
    destruct (Hall m) as (d & Hd & [v Hv]); [by left|].
    destruct (IH (append_at v m acc) (<[m := delete "path" d]> h) Hnd)
      as (groups & h' & Hrun & Hpop & Hframe & Hlocs).
    { intros l Hl. destruct (Hall l) as (dl & Hdl & Hpl); [by right|].
      exists dl. split; [|done]. rewrite lookup_insert_ne; [done|].
      intros ->. done. }
    exists groups, h'. split.
    { cbn [group]. unfold mbind, R_bind.
      by rewrite (pop_path_ok h m d v). }
    split; [|split].
    + intros l [->|Hl]%elem_of_cons.
      * exists d. split; [done|]. rewrite Hframe by done.
        by rewrite lookup_insert_eq.
      * destruct (Hpop l Hl) as (dl & Hdl & Hdl'). exists dl. split; [|done].
        rewrite lookup_insert_ne in Hdl; [done|]. intros ->. done.
    + intros l Hl. apply not_elem_of_cons in Hl as [Hne Hl].
      rewrite Hframe by done. by rewrite lookup_insert_ne.
    + intros x. rewrite Hlocs, append_at_locs, elem_of_cons. tauto.
Qed.

(** A dict that can be rendered: it has a line, a column and a content. *)
Lemma getitem_ok (h : store) l d key v :
  h !! l = Some d -> d !! key = Some v -> getitem l key h = (inr v, h).
Proof. intros Hl Hv. unfold getitem. by rewrite Hl, Hv. Qed.

Lemma render_line_ok (h : store) l d :
  h !! l = Some d ->
  is_Some (d !! "line_nr") -> is_Some (d !! "col_nr") ->
  is_Some (d !! "content") ->
  exists line, render_line l h = (inr line, h).
Proof.
  intros Hl [vl Hvl] [vc Hvc] [vs Hvs]. unfold render_line, mbind, R_bind.
  rewrite (getitem_ok h l d "line_nr" vl) by done.
  rewrite (getitem_ok h l d "col_nr" vc) by done.
  rewrite (getitem_ok h l d "content" vs) by done.
  by eexists.
Qed.

Lemma render_lines_ok (h : store) ls :
  (forall l, l ∈ ls -> exists line, render_line l h = (inr line, h)) ->
  exists lines, render_lines ls h = (inr lines, h).
Proof.
  induction ls as [|l ls IH]; intros Hall; [by eexists|].
  destruct (Hall l) as [line Hline]; [by left|].
  destruct IH as [lines Hlines]; [intros x Hx; apply Hall; by right|].
  cbn [render_lines]. unfold mbind, R_bind. rewrite Hline, Hlines.
  by eexists.
Qed.

Lemma render_blocks_ok (h : store) groups :
  (forall l, l ∈ concat (map snd groups) ->
     exists line, render_line l h = (inr line, h)) ->
  exists blocks, render_blocks groups h = (inr blocks, h).
Proof.
  induction groups as [|[v ls] groups IH]; intros Hall; [by eexists|].
  destruct (render_lines_ok h ls) as [lines Hlines].
  { intros l Hl. apply Hall. simpl. apply elem_of_app. by left. }
  destruct IH as [blocks Hblocks].
  { intros l Hl. apply Hall. simpl. apply elem_of_app. by right. }
  cbn [render_blocks]. unfold render_path_matches, mbind, R_bind.
  rewrite Hlines. unfold mret, R_ret. rewrite Hblocks. by eexists.
Qed.

(** Whenever the grouping loop ends without an error, no dict of the list
    has a path any more. *)
Lemma group_no_path matches : forall acc (h h' : store) groups,
  group matches acc h = (inr groups, h') ->
  (forall l d, l ∈ matches -> h' !! l = Some d -> d !! "path" = None)
  /\ (forall l d, h !! l = Some d -> d !! "path" = None ->
        exists d', h' !! l = Some d' /\ d' !! "path" = None).
Proof.
  induction matches as [|m rest IH]; intros acc h h' groups Hrun.
  - injection Hrun as <- <-. split; [|by eauto].
    intros l d Hl. by apply elem_of_nil in Hl.
  - cbn [group] in Hrun. unfold mbind, R_bind, pop in Hrun.
    destruct (h !! m) as [dm|] eqn:Hm; [|done].
    destruct (dm !! "path") as [v|] eqn:Hv; [|done].
    apply IH in Hrun as [Hin Hkeep]. split.
    + intros l d [->|Hl]%elem_of_cons Hd; [|by eapply Hin].
      destruct (Hkeep m (delete "path" dm)) as (d' & Hd' & Hnone).
      { by rewrite lookup_insert_eq. }
      { by rewrite lookup_delete_eq. }
      congruence.
    + intros l d Hl Hnone. apply (Hkeep l d); [|done].
      rewrite lookup_insert_ne; [done|]. intros ->. congruence.
Qed.

Lemma render_blocks_store groups : forall (h h' : store) r,
  render_blocks groups h = (r, h') -> h' = h.
Proof.
  assert (Hget : forall l key (h h' : store) r,
            getitem l key h = (r, h') -> h' = h).
  { intros l key h h' r. unfold getitem.
    destruct (h !! l) as [d|]; [|by intros [= _ <-]].
    destruct (d !! key); by intros [= _ <-]. }
  assert (Hline : forall l (h h' : store) r,
            render_line l h = (r, h') -> h' = h).
  { intros l h h' r. unfold render_line, mbind, R_bind, mret, R_ret.
    destruct (getitem l "line_nr" h) as [[e|v] h1] eqn:E1;
      apply Hget in E1 as ->; [by intros [= _ <-]|].
    destruct (getitem l "col_nr" h) as [[e|v2] h2] eqn:E2;
      apply Hget in E2 as ->; [by intros [= _ <-]|].
    destruct (getitem l "content" h) as [[e|v3] h3] eqn:E3;
      apply Hget in E3 as ->; by intros [= _ <-]. }
  assert (Hlines : forall ls (h h' : store) r,
            render_lines ls h = (r, h') -> h' = h).
  { induction ls as [|l ls IH]; intros h h' r; [by intros [= _ <-]|].
    cbn [render_lines]. unfold mbind, R_bind, mret, R_ret.
    destruct (render_line l h) as [[e|v] h1] eqn:E1;
      apply Hline in E1 as ->; [by intros [= _ <-]|].
    destruct (render_lines ls h) as [[e|v2] h2] eqn:E2;
      apply IH in E2 as ->; by intros [= _ <-]. }
  induction groups as [|[v ls] groups IH]; intros h h' r;
    [by intros [= _ <-]|].
  cbn [render_blocks]. unfold render_path_matches, mbind, R_bind, mret, R_ret.
  destruct (render_lines ls h) as [[e|v1] h1] eqn:E1;
    apply Hlines in E1 as ->; [by intros [= _ <-]|].
  destruct (render_blocks groups h) as [[e|v2] h2] eqn:E2;
    apply IH in E2 as ->; by intros [= _ <-].
Qed.

(** Whenever [render_matches] returns its text, no input match has a path
    any more. *)
Lemma render_matches_no_path matches query (h h' : store) text :
  render_matches matches query h = (inr text, h') ->
  forall l d, l ∈ matches -> h' !! l = Some d -> d !! "path" = None.
Proof.
  unfold render_matches, mbind, R_bind, mret, R_ret.
  destruct (group matches [] h) as [[e|groups] h1] eqn:Hg; [done|].
  destruct (render_blocks groups h1) as [[e|blocks] h2] eqn:Hb; [done|].
  apply render_blocks_store in Hb as ->. intros [= _ <-].
  by apply (group_no_path matches [] h h1 groups).
Qed.

End RenderFacts.

(** C10. [render_matches] changes the match dicts it is handed.  On a list of
    distinct dicts that each have a path, a line, a column and a content, it
    returns its text, and afterwards every dict of the list is what it was
    with the key [path] removed, so none has a path; the dicts that are not
    in the list are untouched. *)
Theorem render_matches_pops_path (h : Render.store)
    (matches : list Render.loc) (query : string) :
  NoDup matches ->
  (forall l, l ∈ matches ->
     exists d, h !! l = Some d
               /\ is_Some (d !! "path") /\ is_Some (d !! "line_nr")
               /\ is_Some (d !! "col_nr") /\ is_Some (d !! "content")) ->
  exists text h',
    Render.render_matches matches query h = (inr text, h')
    /\ (forall l, l ∈ matches ->
          exists d, h !! l = Some d /\ h' !! l = Some (delete "path" d))
    /\ (forall l d, l ∈ matches -> h' !! l = Some d -> d !! "path" = None)
    /\ (forall l, l ∉ matches -> h' !! l = h !! l).
Proof.
  intros Hnd Hall.
  destruct (RenderFacts.group_ok matches [] h Hnd)
    as (groups & h' & Hgroup & Hpop & Hframe & Hlocs).
  { intros l Hl. destruct (Hall l Hl) as (d & Hd & Hp & _). by exists d. }
  destruct (RenderFacts.render_blocks_ok h' groups) as [blocks Hblocks].
  { intros l [Hl|Hl]%Hlocs; [|by apply elem_of_nil in Hl].
    destruct (Hall l Hl) as (d & Hd & _ & Hline & Hcol & Hcontent).
    destruct (Hpop l Hl) as (d' & Hd' & Hh'). assert (d' = d) as -> by congruence.
    apply (RenderFacts.render_line_ok h' l (delete "path" d)); [done|..];
      by rewrite lookup_delete_ne. }
  eexists _, h'. split.
  { unfold Render.render_matches, mbind, Render.R_bind.
    rewrite Hgroup, Hblocks. reflexivity. }
  split; [done|]. split; [|done].
  intros l d Hl Hd. destruct (Hpop l Hl) as (d0 & _ & Hd0).
  assert (d = delete "path" d0) as -> by congruence.
  by rewrite lookup_delete_eq.
Qed.

Lemma render_matches_pops_path_witness :
  let h : Render.store :=
    {[ 1%nat := Render.match_dict (mkMatch "a.hs" 3 1 "x :: Int");
       2%nat := Render.match_dict (mkMatch "b.hs" 8 5 "x = 1") ]} in
  exists text h',
    Render.render_matches [1; 2]%nat "x" h = (inr text, h')
    /\ (forall l, l ∈ [1; 2]%nat ->
          exists d, h !! l = Some d /\ h' !! l = Some (delete "path" d))
    /\ (forall l d, l ∈ [1; 2]%nat -> h' !! l = Some d -> d !! "path" = None)
    /\ (forall l, l ∉ [1; 2]%nat -> h' !! l = h !! l).
Proof.
  intros h. apply (render_matches_pops_path h [1; 2]%nat "x").
  - apply (bool_decide_unpack _). reflexivity.
  - intros l Hl.
    apply elem_of_cons in Hl as [->|Hl];
      [|apply elem_of_cons in Hl as [->|Hl]; [|by apply elem_of_nil in Hl]].
    + exists (Render.match_dict (mkMatch "a.hs" 3 1 "x :: Int")).
      split; [reflexivity|]. repeat split; by eexists.
    + exists (Render.match_dict (mkMatch "b.hs" 8 5 "x = 1")).
      split; [reflexivity|]. repeat split; by eexists.
Defined.

(** The text of the report, and what is left of the dicts. *)
Example render_matches_text :
  let h : Render.store :=
    {[ 1%nat := Render.match_dict (mkMatch "a.hs" 3 1 "x :: Int");
       2%nat := Render.match_dict (mkMatch "b.hs" 8 5 "x = 1");
       3%nat := Render.match_dict (mkMatch "a.hs" 4 1 "x = 2") ]} in
  let r := Render.render_matches [1; 2; 3]%nat "x" h in
  fst r = inr ("GrepSearch matches for " +:+ Py.dquote +:+ "x" +:+ Py.dquote
               +:+ " (3 lines in 2 files):" +:+ Py.nl +:+ Py.nl
               +:+ "a.hs:" +:+ Py.nl +:+ "  3:1 x :: Int" +:+ Py.nl
               +:+ "  4:1 x = 2" +:+ Py.nl
               +:+ "b.hs:" +:+ Py.nl +:+ "  8:5 x = 1")
  /\ snd r !! 1%nat
     = Some {[ "line_nr" := Render.VInt 3; "col_nr" := Render.VInt 1;
               "content" := Render.VStr "x :: Int" ]}.
Proof. split; by vm_compute. Qed.

(** A list that names one dict twice: the second [pop] finds no path. *)
Example render_matches_alias :
  let h : Render.store :=
    {[ 1%nat := Render.match_dict (mkMatch "a.hs" 3 1 "x :: Int") ]} in
  fst (Render.render_matches [1; 1]%nat "x" h)
  = inl (Render.KeyError "path").
Proof. by vm_compute. Qed.

(** * Further properties *)

(** ** AdjacentMatchFilter *)

Lemma yielded_after_sublist ign prev rest :
  sublist (yielded_after ign prev rest) rest.
Proof.
  revert prev. induction rest as [|this rest IH]; intros prev; [done|].
  cbn [yielded_after]. destruct (skipped ign prev this); cbn [app].
  - by apply sublist_cons.
  - by apply sublist_skip.
Qed.

(** X1. The filter only drops matches: its output is the input with some
    matches removed, in the input's order, and it starts with the first
    input match whenever there is one. *)
Theorem remove_similar_matches_sublist (ms : list Match) (ign : bool) :
  sublist (remove_similar_matches ms ign) ms
  /\ head (remove_similar_matches ms ign) = head ms.
Proof.
  destruct ms as [|m rest]; [split; [apply sublist_nil | done]|].
  rewrite remove_similar_matches_cons. split; [|done].
  apply sublist_skip, yielded_after_sublist.
Qed.

Lemma skipped_mono prev this :
  skipped false prev this = true -> skipped true prev this = true.
Proof.
  unfold skipped. destruct (String.eqb _ _); [|done].
  by destruct (Z.eqb (line_nr this) (line_nr prev)).
Qed.

Lemma yielded_after_coarser prev rest :
  sublist (yielded_after true prev rest) (yielded_after false prev rest).
Proof.
  revert prev. induction rest as [|this rest IH]; intros prev; [done|].
  cbn [yielded_after].
  destruct (skipped false prev this) eqn:Hf.
  - rewrite (skipped_mono _ _ Hf). apply IH.
  - destruct (skipped true prev this); cbn [app].
    + apply sublist_cons, IH.
    + apply sublist_skip, IH.
Qed.

(** X2. Ignoring adjacent lines only drops more: what the filter yields with
    [ignore_adjacents] is what it yields without, with some matches
    removed. *)
Theorem remove_similar_matches_coarser (ms : list Match) :
  sublist (remove_similar_matches ms true) (remove_similar_matches ms false).
Proof.
  destruct ms as [|m rest]; [done|].
  rewrite !remove_similar_matches_cons.
  apply sublist_skip, yielded_after_coarser.
Qed.

Lemma skipped_same_path ign prev this :
  skipped ign prev this = true -> path this = path prev.
Proof.
  unfold skipped. by destruct (String.eqb_spec (path this) (path prev)).
Qed.

Lemma yielded_after_paths ign prev rest m :
  m ∈ rest ->
  path m = path prev
  \/ exists m', m' ∈ yielded_after ign prev rest /\ path m' = path m.
Proof.
  revert prev. induction rest as [|this rest IH]; intros prev Hm.
  - by apply elem_of_nil in Hm.
  - cbn [yielded_after].
    assert (Hthis : path this = path prev
              \/ this ∈ (if skipped ign prev this then [] else [this])
                         ++ yielded_after ign this rest).
    { destruct (skipped ign prev this) eqn:Hs.
      - left. by eapply skipped_same_path.
      - right. apply elem_of_app. left. by apply list_elem_of_singleton. }
    apply elem_of_cons in Hm as [->|Hm].
    + destruct Hthis as [Hp|Hin]; [by left|]. right. by exists this.
    + destruct (IH this Hm) as [Hp|(m' & Hin & Hp)].
      * destruct Hthis as [Hq|Hin]; [left; congruence|].
        right. by exists this.
      * right. exists m'. split; [|done]. apply elem_of_app. by right.
Qed.

(** X3. The filter never loses a file: for every input match, some match of
    the same path is yielded. *)
Theorem remove_similar_matches_keeps_paths (ms : list Match) (ign : bool)
    (m : Match) :
  m ∈ ms ->
  exists m', m' ∈ remove_similar_matches ms ign /\ path m' = path m.
Proof.
  destruct ms as [|first rest]; [by intros ?%elem_of_nil|].
  rewrite remove_similar_matches_cons.
  intros [->|Hm]%elem_of_cons.
  - exists first. split; [by left | done].
  - destruct (yielded_after_paths ign first rest m Hm) as [Hp|(m' & Hin & Hp)].
    + exists first. split; [by left | done].
    + exists m'. split; [by right | done].
Qed.

Lemma remove_similar_matches_keeps_paths_witness :
  exists m',
    m' ∈ remove_similar_matches
           [mkMatch "a.hs" 1 1 "x"; mkMatch "b.hs" 7 1 "y";
            mkMatch "b.hs" 8 1 "z"] true
    /\ path m' = "b.hs".
Proof.
  apply (remove_similar_matches_keeps_paths
           [mkMatch "a.hs" 1 1 "x"; mkMatch "b.hs" 7 1 "y";
            mkMatch "b.hs" 8 1 "z"] true (mkMatch "b.hs" 8 1 "z")).
  apply elem_of_cons. right. apply elem_of_cons. right. by left.
Defined.

Lemma no_similar_neighbours_cons ign a b l :
  no_similar_neighbours ign (a :: b :: l)
  = negb (skipped ign a b) && no_similar_neighbours ign (b :: l).
Proof. reflexivity. Qed.

Lemma yielded_after_fixed ign prev rest :
  yielded_after ign prev rest = rest
  <-> no_similar_neighbours ign (prev :: rest) = true.
Proof.
  revert prev. induction rest as [|this rest IH]; intros prev; [done|].
  rewrite no_similar_neighbours_cons. cbn [yielded_after].
  destruct (skipped ign prev this) eqn:Hs; cbn [negb andb app].
  - split; [|done]. intros Heq.
    pose proof (sublist_length _ _ (yielded_after_sublist ign this rest)) as Hl.
    rewrite Heq in Hl. cbn [length] in Hl. lia.
  - rewrite <- (IH this). split; [by intros [= ->] | by intros ->].
Qed.

(** X4. The filter leaves a list as it is exactly when no match of the list
    would be skipped after the one before it. *)
Theorem remove_similar_matches_fixed (ms : list Match) (ign : bool) :
  remove_similar_matches ms ign = ms
  <-> no_similar_neighbours ign ms = true.
Proof.
  destruct ms as [|m rest]; [done|].
  rewrite remove_similar_matches_cons, <- yielded_after_fixed.
  split; [by intros [= ->] | by intros ->].
Qed.

Lemma skipped_exact prev this :
  skipped false prev this = true
  <-> path this = path prev /\ line_nr this = line_nr prev.
Proof.
  unfold skipped. rewrite andb_false_l.
  destruct (String.eqb_spec (path this) (path prev));
    destruct (Z.eqb_spec (line_nr this) (line_nr prev));
    (split; [by intros | by intros [? ?]]).
Qed.

Lemma skipped_exact_prev prev prev' this :
  path prev' = path prev -> line_nr prev' = line_nr prev ->
  skipped false prev' this = skipped false prev this.
Proof. intros Hp Hl. unfold skipped. by rewrite Hp, Hl. Qed.

Lemma yielded_after_prev prev prev' rest :
  path prev' = path prev -> line_nr prev' = line_nr prev ->
  yielded_after false prev' rest = yielded_after false prev rest.
Proof.
  intros Hp Hl. destruct rest as [|this rest]; [done|].
  cbn [yielded_after]. by rewrite (skipped_exact_prev prev prev').
Qed.

Lemma yielded_after_no_repeats prev rest :
  no_similar_neighbours false (prev :: yielded_after false prev rest) = true.
Proof.
  revert prev. induction rest as [|this rest IH]; intros prev; [done|].
  cbn [yielded_after]. destruct (skipped false prev this) eqn:Hs; cbn [app].
  - apply skipped_exact in Hs as [Hp Hl].
    rewrite (yielded_after_prev prev this) by done. apply IH.
  - rewrite no_similar_neighbours_cons, Hs. apply IH.
Qed.

(** X5. Without [ignore_adjacents], no two neighbours in the output have the
    same path and line number. *)
Theorem remove_similar_matches_no_repeats (ms : list Match) (i : nat)
    (a b : Match) :
  remove_similar_matches ms false !! i = Some a ->
  remove_similar_matches ms false !! S i = Some b ->
  ~ (path b = path a /\ line_nr b = line_nr a).
Proof.
  assert (Hgen : forall l, no_similar_neighbours false l = true ->
            forall i a b, l !! i = Some a -> l !! S i = Some b ->
              skipped false a b = false).
  { induction l as [|x [|y l] IH]; [done..|].
    rewrite no_similar_neighbours_cons. intros [Hxy Hrest]%andb_prop j c d.
    destruct j as [|j].
    - intros [= <-] [= <-]. by apply negb_true_iff.
    - intros Hc Hd. by apply (IH Hrest j). }
  intros Ha Hb Hsame. apply skipped_exact in Hsame.
  assert (Hno : no_similar_neighbours false (remove_similar_matches ms false)
                = true).
  { destruct ms as [|m rest]; [done|].
    rewrite remove_similar_matches_cons. apply yielded_after_no_repeats. }
  rewrite (Hgen _ Hno i a b Ha Hb) in Hsame. done.
Qed.

Lemma remove_similar_matches_no_repeats_witness :
  let ms := [mkMatch "a.py" 7 1 "foo(foo)"; mkMatch "a.py" 7 5 "foo(foo)";
             mkMatch "a.py" 8 1 "foo"] in
  ~ (path (mkMatch "a.py" 8 1 "foo") = path (mkMatch "a.py" 7 1 "foo(foo)")
     /\ line_nr (mkMatch "a.py" 8 1 "foo")
        = line_nr (mkMatch "a.py" 7 1 "foo(foo)")).
Proof.
  intros ms.
  apply (remove_similar_matches_no_repeats ms 0); reflexivity.
Defined.

(** X6. Without [ignore_adjacents] the filter is idempotent: filtering its
    output again changes nothing. *)
Theorem remove_similar_matches_idempotent (ms : list Match) :
  remove_similar_matches (remove_similar_matches ms false) false
  = remove_similar_matches ms false.
Proof.
  destruct ms as [|m rest]; [done|].
  rewrite !remove_similar_matches_cons. f_equal.
  apply yielded_after_fixed, yielded_after_no_repeats.
Qed.

(** ** MatchParser *)

(** X7. A line parses to a match exactly when it has the form
    [p0:p1:p2:content] with no colon in [p0], [p1], [p2] and with [p1] and
    [p2] integer literals; the match then has the stripped [p0] as path,
    the two integers as line and column, and everything after the third
    colon, untouched, as content. *)
Theorem parse_match_success (line : string) (m : Match) :
  parse_match line = inr m
  <-> exists p0 p1 p2,
        line = p0 +:+ String ":"
                 (p1 +:+ String ":" (p2 +:+ String ":" (content m)))
        /\ Py.count ":" p0 = O /\ Py.count ":" p1 = O /\ Py.count ":" p2 = O
        /\ path m = Py.strip p0
        /\ Py.int p1 = Some (line_nr m) /\ Py.int p2 = Some (col_nr m).
Proof.
  split; [apply parse_match_parts|].
  intros (p0 & p1 & p2 & -> & H0 & H1 & H2 & Hp & Hl & Hc).
  unfold parse_match.
  rewrite !split_prefix, split_zero by done.
  rewrite Hl, Hc, <- Hp. by destruct m.
Qed.

(** X8. The loop of [search] is the parser applied to the lines that are not
    blank, in order: it succeeds exactly when each of them parses, and then
    yields one match per such line; blank lines count for nothing, wherever
    they are. *)
Theorem parse_lines_pointwise (lines : list string) (ms : list Match) :
  parse_lines lines = inr ms
  <-> Forall2 (fun line m => parse_match line = inr m)
        (List.filter not_blank lines) ms.
Proof.
  revert ms. induction lines as [|line lines IH]; intros ms.
  - cbn. split; [intros [= <-]; constructor | by intros ->%Forall2_nil_inv_l].
  - cbn [parse_lines List.filter]. unfold not_blank at 1.
    destruct (Py.is_empty (Py.strip line)); cbn [negb]; [apply IH|].
    destruct (parse_match line) as [e|m] eqn:Hm.
    + split; [done|]. intros (m' & ms' & Hm' & _ & _)%Forall2_cons_inv_l.
      congruence.
    + destruct (parse_lines lines) as [e|ms0] eqn:Hl.
      * split; [done|]. intros (m' & ms' & _ & Hrest & _)%Forall2_cons_inv_l.
        by apply IH in Hrest.
      * split.
        -- intros [= <-]. constructor; [done|]. by apply IH.
        -- intros (m' & ms' & Hm' & Hrest & ->)%Forall2_cons_inv_l.
           apply IH in Hrest. congruence.
Qed.

Lemma rstrip_idempotent P s :
  Py.rstrip_by P (Py.rstrip_by P s) = Py.rstrip_by P s.
Proof.
  induction s as [|c s IH]; [done|]. cbn [Py.rstrip_by].
  destruct (P c && Py.is_empty (Py.rstrip_by P s)) eqn:E; [done|].
  cbn [Py.rstrip_by]. by rewrite IH, E.
Qed.

Lemma lstrip_rstrip P s :
  Py.lstrip_by P (Py.rstrip_by P (Py.lstrip_by P s))
  = Py.rstrip_by P (Py.lstrip_by P s).
Proof.
  induction s as [|c s IH]; [done|]. cbn [Py.lstrip_by].
  destruct (P c) eqn:E; [done|].
  cbn [Py.rstrip_by]. rewrite E. cbn [andb Py.lstrip_by]. by rewrite E.
Qed.

(** [strip] twice is [strip] once. *)
Lemma strip_idempotent P s :
  Py.strip_by P (Py.strip_by P s) = Py.strip_by P s.
Proof.
  unfold Py.strip_by. by rewrite lstrip_rstrip, rstrip_idempotent.
Qed.

Lemma count_lstrip P c s : (Py.count c (Py.lstrip_by P s) <= Py.count c s)%nat.
Proof.
  induction s as [|d s IH]; [done|]. cbn [Py.lstrip_by].
  destruct (P d); [|done]. cbn [Py.count]. lia.
Qed.

Lemma count_rstrip P c s : (Py.count c (Py.rstrip_by P s) <= Py.count c s)%nat.
Proof.
  induction s as [|d s IH]; [done|]. cbn [Py.rstrip_by].
  destruct (P d && Py.is_empty (Py.rstrip_by P s)); cbn [Py.count]; lia.
Qed.

Lemma count_strip c s : (Py.count c (Py.strip s) <= Py.count c s)%nat.
Proof.
  unfold Py.strip, Py.strip_by.
  pose proof (count_rstrip Py.isspace c (Py.lstrip_by Py.isspace s)).
  pose proof (count_lstrip Py.isspace c s). lia.
Qed.

(** The raw line of a match with a plain path parses back to the match. *)
Lemma parse_match_render m :
  Py.count ":" (path m) = O -> Py.strip (path m) = path m ->
  parse_match (render_raw_line m) = inr m.
Proof.
  intros Hcolon Hstrip. unfold parse_match.
  rewrite split_render_raw_line by done.
  rewrite !int_str, Hstrip. by destruct m.
Qed.

(** X9. Parsing normalises: a match that comes out of the parser has a path
    without colon and without surrounding whitespace, and the raw line
    rendered from it parses to the same match again, whatever the spelling
    of the line it came from. *)
Theorem parse_match_render_stable (line : string) (m : Match) :
  parse_match line = inr m ->
  Py.count ":" (path m) = O
  /\ Py.strip (path m) = path m
  /\ parse_match (render_raw_line m) = inr m.
Proof.
  intros (p0 & p1 & p2 & _ & H0 & _ & _ & Hp & _)%parse_match_parts.
  assert (Hcolon : Py.count ":" (path m) = O).
  { rewrite Hp. pose proof (count_strip ":" p0). lia. }
  assert (Hstrip : Py.strip (path m) = path m).
  { rewrite Hp. apply strip_idempotent. }
  repeat split; [done..|]. by apply parse_match_render.
Qed.

Lemma parse_match_render_stable_witness :
  parse_match (render_raw_line (mkMatch "src/a.py" 7 12 " x: y "))
  = inr (mkMatch "src/a.py" 7 12 " x: y ").
Proof.
  apply (parse_match_render_stable "  src/a.py : +07 :1_2: x: y ").
  reflexivity.
Defined.

Lemma split_all_prefix sep a rest :
  Py.count sep a = O ->
  Py.split sep None (a +:+ String sep rest) = a :: Py.split sep None rest.
Proof.
  induction a as [|c a IH]; simpl; intros Hc.
  - by rewrite Ascii.eqb_refl.
  - destruct (Ascii.eqb c sep); [done|]. by rewrite IH.
Qed.

Lemma split_all_no_sep sep s :
  Forall (fun part => Py.count sep part = O) (Py.split sep None s).
Proof.
  induction s as [|c s IH]; [by repeat constructor|].
  cbn [Py.split]. destruct (Ascii.eqb_spec c sep) as [->|Hne].
  - by constructor.
  - pose proof (split_nonnil sep None s) as Hn.
    destruct (Py.split sep None s) as [|h t]; [done|].
    apply Forall_cons in IH as [Hh Ht]. constructor; [|done].
    cbn [Py.count]. destruct (Ascii.eqb_spec c sep); [done|]. by rewrite Hh.
Qed.

Lemma split_join_lines ls :
  ls <> [] -> Forall (fun l => Py.count Py.LF l = O) ls ->
  Py.split Py.LF None (Py.join Py.nl ls) = ls.
Proof.
  induction ls as [|l [|l2 rest] IH]; [done|..]; intros _ Hall.
  - apply Forall_cons in Hall as [Hl _]. by apply split_no_sep.
  - apply Forall_cons in Hall as [Hl Hrest].
    rewrite join_cons. unfold Py.nl at 1. rewrite append_cons.
    change (EmptyString +:+ ?s) with s.
    rewrite split_all_prefix by done. f_equal. by apply IH.
Qed.

Lemma parse_match_plain line m :
  Py.count Py.LF line = O -> parse_match line = inr m -> plain_match m.
Proof.
  intros Hline (p0 & p1 & p2 & -> & H0 & _ & _ & Hp & _)%parse_match_parts.
  rewrite count_app in Hline. cbn [Py.count] in Hline.
  rewrite count_app in Hline. cbn [Py.count] in Hline.
  rewrite count_app in Hline. cbn [Py.count] in Hline.
  pose proof (count_strip Py.LF p0). pose proof (count_strip ":" p0).
  unfold plain_match. rewrite Hp.
  split; [lia|]. split; [lia|]. split; [lia|]. apply strip_idempotent.
Qed.

Lemma parse_lines_plain lines ms :
  Forall (fun l => Py.count Py.LF l = O) lines ->
  parse_lines lines = inr ms -> Forall plain_match ms.
Proof.
  revert ms. induction lines as [|line lines IH]; intros ms Hall.
  - intros [= <-]. constructor.
  - apply Forall_cons in Hall as [Hline Hall]. cbn [parse_lines].
    destruct (Py.is_empty (Py.strip line)); [by apply IH|].
    destruct (parse_match line) as [e|m] eqn:Hm; [done|].
    destruct (parse_lines lines) as [e|ms0]; [done|].
    intros [= <-]. constructor; [by eapply parse_match_plain | by apply IH].
Qed.

Lemma render_raw_line_plain m :
  plain_match m ->
  Py.count Py.LF (render_raw_line m) = O
  /\ Py.is_empty (Py.strip (render_raw_line m)) = false
  /\ parse_match (render_raw_line m) = inr m.
Proof.
  intros (Hc & Hp & Hcolon & Hstrip). split; [|split].
  - rewrite render_raw_line_eq. rewrite count_app. cbn [Py.count].
    rewrite count_app. cbn [Py.count]. rewrite count_app. cbn [Py.count].
    rewrite Hp, Hc.
    by rewrite !(every_count Py.isnumeral Py.LF _ eq_refl (str_numeral _)).
  - apply (strip_nonempty_of_char ":"); [done|].
    rewrite render_raw_line_eq, count_app. cbn [Py.count]. simpl. lia.
  - by apply parse_match_render.
Qed.

Lemma parse_render_raw_lines ms :
  Forall plain_match ms -> parse_output (render_raw_lines ms) = inr ms.
Proof.
  intros Hall. unfold parse_output, render_raw_lines.
  destruct ms as [|m0 ms0]; [done|]. set (ms := m0 :: ms0) in *.
  rewrite split_join_lines.
  - clearbody ms. induction Hall as [|m ms Hm Hall IH]; [done|].
    destruct (render_raw_line_plain m Hm) as (_ & Hblank & Hparse).
    cbn [map parse_lines]. by rewrite Hblank, Hparse, IH.
  - done.
  - clearbody ms. induction Hall as [|m ms Hm Hall IH]; [constructor|].
    cbn [map]. constructor; [|done]. by apply render_raw_line_plain.
Qed.

Section SearchMore.

Variable settings : Settings.
Variable subprocess_run :
  list event -> list string -> string -> option CompletedProcess.

Lemma search_success query folders log ms :
  fst (search settings subprocess_run query folders log) = inr ms ->
  ms = [] \/ exists output, parse_output output = inr ms.
Proof.
  unfold search. destruct (Py.is_empty (Py.strip query)).
  { intros [= <-]. by left. }
  unfold mbind, M_bind, emit, raise, lift, run.
  destruct folders as [|cwd folders]; [done|].
  destruct (subprocess_run _ _ _) as [p|]; [|done]. cbn [fst].
  destruct (is_error settings p); [done|]. cbn [fst].
  intros H. right. by eexists.
Qed.

(** X10. Whatever the engine printed, the matches a successful [search]
    returns are plain (no line feed in path or content, no colon in the path,
    no whitespace around it), and printed back as raw lines, one per line,
    they parse to the same list of matches. *)
Theorem search_matches_round_trip (query : string) (folders : list string)
    (log : list event) (ms : list Match) :
  fst (search settings subprocess_run query folders log) = inr ms ->
  Forall plain_match ms
  /\ parse_output (render_raw_lines ms) = inr ms.
Proof.
  intros Hs.
  assert (Hplain : Forall plain_match ms).
  { apply search_success in Hs as [->|[output Hout]]; [constructor|].
    eapply parse_lines_plain; [|exact Hout]. apply split_all_no_sep. }
  split; [done|]. by apply parse_render_raw_lines.
Qed.

End SearchMore.

Lemma search_matches_round_trip_witness :
  let settings := mkSettings "ripgrep" "rg" ["--vimgrep"] false in
  let output := " a.hs :07: 1 :x :: Int" +:+ Py.nl +:+ Py.nl
                +:+ "b.hs:3:2_0:y" +:+ Py.nl in
  let world := fun (_ : list event) (_ : list string) (_ : string) =>
                 Some (mkCompleted 0 output EmptyString) in
  parse_output (render_raw_lines [mkMatch "a.hs" 7 1 "x :: Int";
                                  mkMatch "b.hs" 3 20 "y"])
  = inr [mkMatch "a.hs" 7 1 "x :: Int"; mkMatch "b.hs" 3 20 "y"].
Proof.
  intros settings output world.
  apply (search_matches_round_trip settings world "x" ["/src"] []).
  reflexivity.
Defined.

(** ** ProcessSearchRunner and QueryPlanner: the processes run *)

Lemma runs_app a b : runs (a ++ b) = (runs a + runs b)%nat.
Proof. unfold runs. by rewrite List.filter_app, length_app. Qed.

Lemma type_queries_not_blank query :
  Forall (fun q => not_blank q.2 = true) (type_queries query).
Proof.
  unfold type_queries, not_blank.
  repeat constructor; cbn [snd]; apply negb_true_iff;
    apply (strip_nonempty_of_char "("); try done;
    rewrite ?count_app; cbn [Py.count]; simpl; lia.
Qed.

Lemma value_queries_not_blank query :
  Forall (fun q => not_blank q.2 = true) (value_queries query).
Proof.
  unfold value_queries, not_blank.
  repeat constructor; cbn [snd]; apply negb_true_iff;
    apply (strip_nonempty_of_char "("); try done;
    rewrite ?count_app; cbn [Py.count]; simpl; lia.
Qed.

Lemma M_bind_unfold {A B} (c : M A) (k : A -> M B) log :
  (c ≫= k) log
  = match c log with
    | (inr a, log') => k a log'
    | (inl e, log') => (inl e, log')
    end.
Proof. reflexivity. Qed.

Section Processes.

Variable settings : Settings.
Variable subprocess_run :
  list event -> list string -> string -> option CompletedProcess.


Lemma search_events query folders log :
  exists events,
    snd (search settings subprocess_run query folders log) = log ++ events
    /\ (runs events <= 1)%nat
    /\ (forall ms,
          fst (search settings subprocess_run query folders log) = inr ms ->
          not_blank query = true -> runs events = 1%nat).
Proof.
  unfold search, not_blank.
  destruct (Py.is_empty (Py.strip query)).
  { exists []. split; [by rewrite app_nil_r|]. split; [cbn; lia | done]. }
  unfold mbind, M_bind, emit, raise, lift, run.
  destruct folders as [|cwd folders].
  { eexists [_]. split; [reflexivity|]. split; [cbn; lia | done]. }
  destruct (subprocess_run _ _ _) as [p|].
  - eexists [_; _]. rewrite <- app_assoc.
    destruct (is_error settings p);
      (split; [reflexivity|]; split; [cbn; lia | done]).
  - eexists [_; _]. rewrite <- app_assoc.
    split; [reflexivity|]. split; [cbn; lia | done].
Qed.

Lemma run_queries_cons label q queries folders log :
  run_queries settings subprocess_run ((label, q) :: queries) folders log
  = match search settings subprocess_run q folders log with
    | (inl e, log1) => (inl e, log1)
    | (inr ms1, log1) =>
        match run_queries settings subprocess_run queries folders log1 with
        | (inl e, log2) => (inl e, log2)
        | (inr ms2, log2) => (inr (ms1 ++ ms2), log2)
        end
    end.
Proof.
  cbn [run_queries]. rewrite M_bind_unfold.
  destruct (search settings subprocess_run q folders log) as [[e|ms1] log1];
    [done|].
  rewrite M_bind_unfold.
  by destruct (run_queries settings subprocess_run queries folders log1)
    as [[e|ms2] log2].
Qed.

Lemma run_queries_events queries folders log :
  exists events,
    snd (run_queries settings subprocess_run queries folders log)
    = log ++ events
    /\ (runs events <= length queries)%nat
    /\ (forall ms,
          fst (run_queries settings subprocess_run queries folders log)
          = inr ms ->
          Forall (fun q => not_blank q.2 = true) queries ->
          runs events = length queries).
Proof.
  revert log. induction queries as [|[label q] queries IH]; intros log.
  { exists []. split; [by rewrite app_nil_r|]. by split. }
  destruct (search_events q folders log) as (ev1 & Hlog1 & Hle1 & Heq1).
  rewrite run_queries_cons.
  destruct (search settings subprocess_run q folders log)
    as [[e|ms1] log1] eqn:Hs; cbn [fst snd] in *; subst log1.
  { exists ev1. split; [done|]. split; [cbn [length]; lia | done]. }
  destruct (IH (log ++ ev1)) as (ev2 & Hlog2 & Hle2 & Heq2).
  destruct (run_queries settings subprocess_run queries folders (log ++ ev1))
    as [[e|ms2] log2] eqn:Hr; cbn [fst snd] in *; subst log2.
  - exists (ev1 ++ ev2). rewrite app_assoc, runs_app.
    split; [done|]. split; [cbn [length]; lia | done].
  - exists (ev1 ++ ev2). rewrite app_assoc, runs_app.
    split; [done|]. split; [cbn [length]; lia|].
    intros ms _ [Hq Hqs]%Forall_cons. cbn [snd] in Hq.
    rewrite (Heq1 ms1), (Heq2 ms2) by done. done.
Qed.

(** X11. A plain search runs at most one process.  A definition search runs
    at most four and only adds to the log; when it succeeds it has run
    exactly one process per sub-query of its plan, so three or four. *)
Theorem searches_run_few_processes (query : string)
    (folders : list string) (log : list event) :
  (exists events,
     snd (search settings subprocess_run query folders log) = log ++ events
     /\ (runs events <= 1)%nat)
  /\ exists events,
       snd (search_for_haskell_defns settings subprocess_run query folders
              log) = log ++ events
       /\ (runs events <= 4)%nat
       /\ forall ms,
            fst (search_for_haskell_defns settings subprocess_run query
                   folders log) = inr ms ->
            exists plan, haskell_defn_queries query = inr plan
                         /\ runs events = length plan
                         /\ (3 <= runs events)%nat.
Proof.
  split.
  { destruct (search_events query folders log) as (events & Hlog & Hle & _).
    by exists events. }
  unfold search_for_haskell_defns, mbind, M_bind, lift.
  destruct (haskell_defn_queries query) as [e|plan] eqn:Hplan.
  { exists []. rewrite app_nil_r. repeat split; [cbn; lia | done]. }
  assert (Hshape : Forall (fun q => not_blank q.2 = true) plan
                   /\ (3 <= length plan <= 4)%nat).
  { unfold haskell_defn_queries in Hplan.
    destruct (Py.strip query) as [|c rest]; [done|].
    injection Hplan as <-. destruct (starts_type_name c).
    - split; [apply type_queries_not_blank | cbn; lia].
    - split; [apply value_queries_not_blank | cbn; lia]. }
  destruct Hshape as [Hnb Hlen].
  destruct (run_queries_events plan folders log) as (events & Hlog & Hle & Heq).
  exists events. split; [done|]. split; [lia|].
  intros ms Hms. exists plan. rewrite (Heq ms) by done. split; [done|]. lia.
Qed.

Lemma run_queries_app done_queries queries folders log ms log1 :
  run_queries settings subprocess_run done_queries folders log
  = (inr ms, log1) ->
  run_queries settings subprocess_run (done_queries ++ queries) folders log
  = match run_queries settings subprocess_run queries folders log1 with
    | (inr ms', log2) => (inr (ms ++ ms'), log2)
    | (inl e, log2) => (inl e, log2)
    end.
Proof.
  revert log ms. induction done_queries as [|[label q] qs IH]; intros log ms.
  - intros [= <- <-]. cbn [app].
    by destruct (run_queries settings subprocess_run queries folders log)
      as [[e|ms'] log2].
  - cbn [app]. rewrite !run_queries_cons.
    destruct (search settings subprocess_run q folders log)
      as [[e|ms1] log0]; [done|].
    destruct (run_queries settings subprocess_run qs folders log0)
      as [[e|ms2] log0'] eqn:Hr; [done|].
    intros [= <- <-]. rewrite (IH log0 ms2) by done.
    destruct (run_queries settings subprocess_run queries folders log0')
      as [[e|ms'] log2]; [done|]. by rewrite app_assoc.
Qed.

(** X12. The sub-queries of a plan run in order and the first one that fails
    ends the search: its error is the result, the log stops where that
    search stopped, so no later sub-query is run, and the matches found
    before are dropped. *)
Theorem run_queries_stops_at_failure (done_queries : list (string * string))
    (label sub_query : string) (later : list (string * string))
    (folders : list string) (log log1 log2 : list event) (ms : list Match)
    (e : error) :
  run_queries settings subprocess_run done_queries folders log
  = (inr ms, log1) ->
  search settings subprocess_run sub_query folders log1 = (inl e, log2) ->
  run_queries settings subprocess_run
    (done_queries ++ (label, sub_query) :: later) folders log
  = (inl e, log2).
Proof.
  intros Hdone Hfail. rewrite (run_queries_app _ _ _ _ ms log1) by done.
  by rewrite run_queries_cons, Hfail.
Qed.

End Processes.

Lemma run_queries_stops_at_failure_witness :
  let settings := mkSettings "ripgrep" "rg" [] false in
  let world := fun (log : list event) (_ : list string) (_ : string) =>
    if (runs log =? 0)%nat
    then Some (mkCompleted 0 "a.hs:3:1:foo :: Int" EmptyString)
    else Some (mkCompleted 2 "a.hs:4:1:foo = 1" "regex parse error") in
  run_queries settings world (value_queries "foo") ["/src"] []
  = (inl (SearchEngineError "regex parse error"),
     [ Printed "Running: rg ^ *(foo)\s+::\s+. /src";
       Ran ["rg"; "^ *(foo)\s+::\s+."; "/src"] "/src" 10;
       Printed "Running: rg ^ *(foo)\s+[^=$]*\s=\s /src";
       Ran ["rg"; "^ *(foo)\s+[^=$]*\s=\s"; "/src"] "/src" 10 ]).
Proof.
  intros settings world.
  apply (run_queries_stops_at_failure settings world
           [("Value type", "^ *(foo)\s+::\s+.")]
           "Value definition" "^ *(foo)\s+[^=$]*\s=\s"
           [("Record getter", " +[{,] +(foo)\s+::\s+")]
           ["/src"] []
           [ Printed "Running: rg ^ *(foo)\s+::\s+. /src";
             Ran ["rg"; "^ *(foo)\s+::\s+."; "/src"] "/src" 10 ]
           _ [mkMatch "a.hs" 3 1 "foo :: Int"]);
    reflexivity.
Defined.

(** ** ResultPresenter: grouping and failures *)

Module ReportFacts.
Import Render Report.

Lemma nub_snoc `{EqDecision A} (l : list A) x :
  nub (l ++ [x]) = if decide (x ∈ l) then nub l else nub l ++ [x].
Proof.
  induction l as [|a l IH]; [done|].
  cbn [app nub]. rewrite IH.
  destruct (decide (x ∈ l)) as [Hin|Hnin].
  - rewrite decide_True by (by right). done.
  - rewrite List.filter_app. cbn [List.filter].
    destruct (decide (x = a)) as [->|Hne].
    + rewrite decide_True by (by left).
      rewrite bool_decide_eq_true_2 by done. cbn [negb]. by rewrite app_nil_r.
    + rewrite decide_False by (intros [?|?]%elem_of_cons; done).
      rewrite bool_decide_eq_false_2 by done. done.
Qed.

Lemma nub_elem_of `{EqDecision A} (l : list A) x : x ∈ nub l <-> x ∈ l.
Proof.
  induction l as [|a l IH]; [done|]. cbn [nub].
  rewrite !elem_of_cons, list_elem_of_In, List.filter_In, <- list_elem_of_In, IH.
  rewrite negb_true_iff, bool_decide_eq_false.
  destruct (decide (x = a)); tauto.
Qed.

Lemma nub_NoDup `{EqDecision A} (l : list A) : NoDup (nub l).
Proof.
  induction l as [|a l IH]; [constructor|]. cbn [nub]. constructor.
  - rewrite list_elem_of_In, List.filter_In, negb_true_iff, bool_decide_eq_false.
    tauto.
  - apply NoDup_ListNoDup, List.NoDup_filter, NoDup_ListNoDup, IH.
Qed.

Lemma append_at_map (f : pyval -> list loc) keys p l :
  NoDup keys ->
  append_at p l (map (fun q => (q, f q)) keys)
  = if decide (p ∈ keys)
    then map (fun q => (q, f q ++ if decide (q = p) then [l] else [])) keys
    else map (fun q => (q, f q)) keys ++ [(p, [l])].
Proof.
  induction keys as [|k keys IH]; intros Hnd; [done|].
  apply NoDup_cons in Hnd as [Hk Hnd]. cbn [map append_at].
  destruct (decide (k = p)) as [->|Hne].
  - rewrite decide_True by (by left).
    f_equal. apply map_ext_in. intros q Hq%list_elem_of_In.
    rewrite decide_False by (by intros ->). by rewrite app_nil_r.
  - rewrite IH by done.
    destruct (decide (p ∈ keys)) as [Hin|Hnin].
    + rewrite decide_True by (by right). cbn [map]. by rewrite app_nil_r.
    + rewrite decide_False by (intros [?|?]%elem_of_cons; done). done.
Qed.

(** The matches of a list of items that go with a path. *)
Lemma regroup_spec its :
  regroup its []
  = map (fun q => (q, map snd (List.filter
                                 (fun it => bool_decide (it.1 = q)) its)))
      (nub (map fst its)).
Proof.
  induction its as [|[p l] its IH] using rev_ind; [done|].
  unfold regroup in *. rewrite foldl_app. cbn [foldl fst snd]. rewrite IH.
  rewrite append_at_map by apply nub_NoDup.
  rewrite map_app. cbn [map fst]. rewrite nub_snoc.
  destruct (decide (p ∈ nub (map fst its))) as [Hin|Hnin].
  - rewrite decide_True by (by apply nub_elem_of).
    apply map_ext. intros q. rewrite List.filter_app, map_app.
    cbn [List.filter fst]. by destruct (decide (q = p)) as [->|];
      [rewrite bool_decide_eq_true_2 by done
      |rewrite bool_decide_eq_false_2 by (by intros ->)].
  - rewrite decide_False by (by rewrite <- nub_elem_of).
    rewrite map_app. cbn [map]. f_equal.
    + apply map_ext_in. intros q Hq%list_elem_of_In.
      rewrite List.filter_app, map_app. cbn [List.filter fst].
      rewrite bool_decide_eq_false_2 by (by intros ->). by rewrite app_nil_r.
    + rewrite List.filter_app, map_app. cbn [List.filter fst].
      rewrite bool_decide_eq_true_2 by done. cbn [map snd].
      rewrite (filter_none _ its); [done|].
      intros [q l'] Hq. apply bool_decide_eq_false. cbn [fst]. intros ->.
      apply Hnin, nub_elem_of, list_elem_of_In, in_map_iff.
      by exists (p, l').
Qed.

Lemma items_paths (h : store) matches :
  map fst (items h matches) = omap (path_of h) matches.
Proof.
  induction matches as [|l matches IH]; [done|].
  unfold items in *. cbn. destruct (path_of h l); cbn; by rewrite IH.
Qed.

Lemma items_with_path (h : store) matches q :
  map snd (List.filter (fun it => bool_decide (it.1 = q)) (items h matches))
  = with_path h q matches.
Proof.
  induction matches as [|l matches IH]; [done|].
  unfold items, with_path in *. cbn.
  destruct (path_of h l) as [p|]; cbn.
  - destruct (decide (p = q)) as [->|Hne].
    + rewrite !bool_decide_eq_true_2 by done. cbn. by rewrite IH.
    + rewrite !bool_decide_eq_false_2 by congruence. done.
  - rewrite bool_decide_eq_false_2 by done. done.
Qed.

Lemma path_of_insert_ne (h : store) m d l :
  l <> m -> path_of (<[m := d]> h) l = path_of h l.
Proof. intros Hne. unfold path_of. by rewrite lookup_insert_ne. Qed.

Lemma items_insert_fresh (h : store) m d matches :
  m ∉ matches -> items (<[m := d]> h) matches = items h matches.
Proof.
  induction matches as [|l matches IH]; [done|].
  intros [Hne Hnin]%not_elem_of_cons. unfold items in *. cbn.
  rewrite path_of_insert_ne by done. by rewrite IH.
Qed.

Lemma items_cons (h : store) l p matches :
  path_of h l = Some p -> items h (l :: matches) = (p, l) :: items h matches.
Proof. intros Hp. unfold items. cbn. by rewrite Hp. Qed.

(** On distinct dicts that all hold a path, the grouping loop is the fold
    over the matches with their paths. *)
Lemma group_regroup matches : forall acc (h : store),
  NoDup matches ->
  (forall l, l ∈ matches -> is_Some (path_of h l)) ->
  fst (group matches acc h) = inr (regroup (items h matches) acc).
Proof.
  induction matches as [|m rest IH]; intros acc h Hnd Hall; [done|].
  apply NoDup_cons in Hnd as [Hm Hnd].
  destruct (Hall m) as [v Hv]; [by left|].
  rewrite (items_cons h m v) by done.
  unfold path_of in Hv. destruct (h !! m) as [d|] eqn:Hd; [|done].
  cbn [group]. unfold mbind, R_bind.
  rewrite (RenderFacts.pop_path_ok h m d v) by done.
  rewrite IH; [|done|].
  - by rewrite items_insert_fresh.
  - intros l Hl. rewrite path_of_insert_ne; [apply Hall; by right|].
    by intros ->.
Qed.

Lemma group_grouped (h : store) matches :
  NoDup matches ->
  (forall l, l ∈ matches -> is_Some (path_of h l)) ->
  fst (group matches [] h) = inr (grouped h matches).
Proof.
  intros Hnd Hall. rewrite group_regroup by done.
  rewrite regroup_spec, items_paths.
  unfold grouped. f_equal. apply map_ext. intros q.
  by rewrite items_with_path.
Qed.
End ReportFacts.

(** X13. On distinct dicts that all hold a path, the grouping loop of
    [render_matches] makes one group per path, in the order in which the
    paths first occur in the list, and puts in each group the matches of
    that path in the order of the list. *)
Theorem group_by_first_seen_path (h : Render.store)
    (matches : list Render.loc) :
  NoDup matches ->
  (forall l, l ∈ matches -> is_Some (Report.path_of h l)) ->
  fst (Render.group matches [] h) = inr (Report.grouped h matches).
Proof. apply ReportFacts.group_grouped. Qed.

Lemma group_by_first_seen_path_witness :
  let h : Render.store :=
    {[ 1%nat := Render.match_dict (mkMatch "b.hs" 8 5 "x = 1");
       2%nat := Render.match_dict (mkMatch "a.hs" 3 1 "x :: Int");
       3%nat := Render.match_dict (mkMatch "b.hs" 9 1 "y = x") ]} in
  fst (Render.group [1; 2; 3]%nat [] h)
  = inr [(Render.VStr "b.hs", [1; 3]%nat); (Render.VStr "a.hs", [2%nat])].
Proof.
  intros h. apply (group_by_first_seen_path h [1; 2; 3]%nat).
  - apply (bool_decide_unpack _). reflexivity.
  - intros l Hl.
    apply elem_of_cons in Hl as [->|Hl]; [by eexists|].
    apply elem_of_cons in Hl as [->|Hl]; [by eexists|].
    apply elem_of_cons in Hl as [->|Hl]; [by eexists|].
    by apply elem_of_nil in Hl.
Defined.


Module ReportText.
Import Render Report.

Lemma render_line_value (h h' : store) l d :
  h !! l = Some d -> h' !! l = Some (delete "path" d) ->
  is_Some (d !! "line_nr") -> is_Some (d !! "col_nr") ->
  is_Some (d !! "content") ->
  render_line l h' = (inr (line h l), h').
Proof.
  intros Hl Hl' [vl Hvl] [vc Hvc] [vs Hvs].
  unfold render_line, mbind, R_bind.
  rewrite (RenderFacts.getitem_ok h' l (delete "path" d) "line_nr" vl)
    by (by rewrite ?lookup_delete_ne).
  rewrite (RenderFacts.getitem_ok h' l (delete "path" d) "col_nr" vc)
    by (by rewrite ?lookup_delete_ne).
  rewrite (RenderFacts.getitem_ok h' l (delete "path" d) "content" vs)
    by (by rewrite ?lookup_delete_ne).
  unfold line, field. by rewrite Hl, Hvl, Hvc, Hvs.
Qed.

Lemma render_lines_value (h h' : store) ls :
  (forall l, l ∈ ls -> render_line l h' = (inr (line h l), h')) ->
  render_lines ls h' = (inr (map (line h) ls), h').
Proof.
  induction ls as [|l ls IH]; intros Hall; [done|].
  cbn [render_lines map]. unfold mbind, R_bind.
  rewrite (Hall l) by (by left).
  rewrite IH by (intros x Hx; apply Hall; by right). done.
Qed.

Lemma render_blocks_value (h h' : store) groups :
  (forall l, l ∈ concat (map snd groups) ->
     render_line l h' = (inr (line h l), h')) ->
  render_blocks groups h' = (inr (map (block h) groups), h').
Proof.
  induction groups as [|[p ls] groups IH]; intros Hall; [done|].
  cbn [render_blocks map]. unfold render_path_matches, mbind, R_bind.
  rewrite (render_lines_value h h' ls).
  2:{ intros l Hl. apply Hall. cbn. apply elem_of_app. by left. }
  unfold mret, R_ret.
  rewrite IH by (intros l Hl; apply Hall; cbn; apply elem_of_app; by right).
  done.
Qed.

Lemma group_fails matches : forall acc (h : store),
  (forall l, l ∈ matches -> is_Some (h !! l)) ->
  ~ NoDup matches \/ (exists l, l ∈ matches /\ path_of h l = None) ->
  fst (group matches acc h) = inl (KeyError "path").
Proof.
  induction matches as [|m rest IH]; intros acc h Hobj Hbad.
  { destruct Hbad as [Hnd|(l & Hl & _)]; [|by apply elem_of_nil in Hl].
    destruct Hnd. constructor. }
  destruct (Hobj m) as [d Hd]; [by left|].
  cbn [group]. unfold mbind, R_bind, pop. rewrite Hd.
  destruct (d !! "path") as [v|] eqn:Hv; [|done].
  apply IH.
  - intros l Hl. destruct (decide (l = m)) as [->|Hne].
    + by rewrite lookup_insert_eq.
    + rewrite lookup_insert_ne by done. apply Hobj. by right.
  - assert (Hm : m ∈ rest -> exists l, l ∈ rest
                  /\ path_of (<[m := delete "path" d]> h) l = None).
    { intros Hin. exists m. split; [done|]. unfold path_of.
      by rewrite lookup_insert_eq, lookup_delete_eq. }
    destruct Hbad as [Hnd|(l & Hl & Hp)].
    + destruct (decide (m ∈ rest)) as [Hin|Hnin]; [right; by apply Hm|].
      left. intros Hnd'. apply Hnd. by constructor.
    + apply elem_of_cons in Hl as [->|Hl].
      { unfold path_of in Hp. rewrite Hd in Hp. congruence. }
      destruct (decide (l = m)) as [->|Hne]; [right; by apply Hm|].
      right. exists l. split; [done|].
      by rewrite ReportFacts.path_of_insert_ne.
Qed.

Lemma group_after matches : forall acc (h h' : store) groups,
  group matches acc h = (inr groups, h') ->
  forall l, l ∈ matches -> is_Some (h' !! l) /\ path_of h' l = None.
Proof.
  assert (Hkeep : forall matches0 acc (h h' : store) groups,
            group matches0 acc h = (inr groups, h') ->
            forall l, is_Some (h !! l) -> path_of h l = None ->
              is_Some (h' !! l) /\ path_of h' l = None).
  { intros matches0. induction matches0 as [|m rest IH]; intros acc h h' groups Hrun l Hl Hp.
    - injection Hrun as <- <-. by split.
    - cbn [group] in Hrun. unfold mbind, R_bind, pop in Hrun.
      destruct (h !! m) as [dm|] eqn:Hm; [|done].
      destruct (dm !! "path") as [v|] eqn:Hv; [|done].
      apply (IH _ _ _ _ Hrun).
      + destruct (decide (l = m)) as [->|Hne];
          [by rewrite lookup_insert_eq | by rewrite lookup_insert_ne].
      + destruct (decide (l = m)) as [->|Hne];
          [|by rewrite ReportFacts.path_of_insert_ne].
        unfold path_of. by rewrite lookup_insert_eq, lookup_delete_eq. }
  induction matches as [|m rest IH]; intros acc h h' groups Hrun l Hl.
  { by apply elem_of_nil in Hl. }
  pose proof Hrun as Hrun'.
  cbn [group] in Hrun. unfold mbind, R_bind, pop in Hrun.
  destruct (h !! m) as [dm|] eqn:Hm; [|done].
  destruct (dm !! "path") as [v|] eqn:Hv; [|done].
  apply elem_of_cons in Hl as [->|Hl]; [|by eapply IH].
  apply (Hkeep _ _ _ _ _ Hrun).
  - by rewrite lookup_insert_eq.
  - unfold path_of. by rewrite lookup_insert_eq, lookup_delete_eq.
Qed.

Lemma render_matches_group_error matches query (h : store) e :
  fst (group matches [] h) = inl e ->
  fst (render_matches matches query h) = inl e.
Proof.
  intros Hg. unfold render_matches, mbind, R_bind.
  by destruct (group matches [] h) as [[e'|groups] h1];
    cbn [fst] in Hg; simplify_eq.
Qed.

End ReportText.

(** X14. On distinct dicts that each hold a path, a line, a column and a
    content, the text [render_matches] returns is: a header with the query,
    the number of matches and the number of distinct paths; an empty line;
    then, for each path in the order of first occurrence, the path followed
    by a colon and one line [  line:col content] per match of that path, in
    the order of the list. *)
Theorem render_matches_text_is_report (h : Render.store)
    (matches : list Render.loc) (query : string) :
  NoDup matches ->
  (forall l, l ∈ matches ->
     exists d, h !! l = Some d
               /\ is_Some (d !! "path") /\ is_Some (d !! "line_nr")
               /\ is_Some (d !! "col_nr") /\ is_Some (d !! "content")) ->
  fst (Render.render_matches matches query h)
  = inr (Report.report h matches query).
Proof.
  intros Hnd Hall.
  assert (Hpaths : forall l, l ∈ matches -> is_Some (Report.path_of h l)).
  { intros l Hl. destruct (Hall l Hl) as (d & Hd & Hp & _).
    unfold Report.path_of. by rewrite Hd. }
  pose proof (ReportFacts.group_grouped h matches Hnd Hpaths) as Hfst.
  destruct (RenderFacts.group_ok matches [] h Hnd)
    as (groups & h' & Hgroup & Hpop & _ & Hlocs).
  { intros l Hl. destruct (Hall l Hl) as (d & Hd & Hp & _). by exists d. }
  rewrite Hgroup in Hfst. cbn [fst] in Hfst. injection Hfst as ->.
  unfold Render.render_matches, mbind, Render.R_bind. rewrite Hgroup.
  rewrite (ReportText.render_blocks_value h h').
  2:{ intros l [Hl|Hl]%Hlocs; [|by apply elem_of_nil in Hl].
      destruct (Hall l Hl) as (d & Hd & _ & Hline & Hcol & Hcontent).
      destruct (Hpop l Hl) as (d' & Hd' & Hh').
      assert (d' = d) as -> by congruence.
      by apply (ReportText.render_line_value h h' l d). }
  cbn [fst]. unfold mret, Render.R_ret, Report.report, Report.header.
  unfold Report.grouped. by rewrite length_map.
Qed.

Lemma render_matches_text_is_report_witness :
  let h : Render.store :=
    {[ 1%nat := Render.match_dict (mkMatch "b.hs" 8 5 "x = 1");
       2%nat := Render.match_dict (mkMatch "a.hs" 3 1 "x :: Int");
       3%nat := Render.match_dict (mkMatch "b.hs" 9 1 "y = x") ]} in
  fst (Render.render_matches [1; 2; 3]%nat "x" h)
  = inr ("GrepSearch matches for " +:+ Py.dquote +:+ "x" +:+ Py.dquote
         +:+ " (3 lines in 2 files):" +:+ Py.nl +:+ Py.nl
         +:+ "b.hs:" +:+ Py.nl +:+ "  8:5 x = 1" +:+ Py.nl
         +:+ "  9:1 y = x" +:+ Py.nl
         +:+ "a.hs:" +:+ Py.nl +:+ "  3:1 x :: Int").
Proof.
  intros h. apply (render_matches_text_is_report h [1; 2; 3]%nat "x").
  - apply (bool_decide_unpack _). reflexivity.
  - intros l Hl.
    apply elem_of_cons in Hl as [->|Hl];
      [eexists; split; [reflexivity|]; repeat split; by eexists|].
    apply elem_of_cons in Hl as [->|Hl];
      [eexists; split; [reflexivity|]; repeat split; by eexists|].
    apply elem_of_cons in Hl as [->|Hl];
      [eexists; split; [reflexivity|]; repeat split; by eexists|].
    by apply elem_of_nil in Hl.
Defined.

(** X15. [render_matches] fails with the [KeyError] of [pop('path')]
    whenever a dict of the list holds no path or the list names a dict
    twice. *)
Theorem render_matches_key_error (h : Render.store)
    (matches : list Render.loc) (query : string) :
  (forall l, l ∈ matches -> is_Some (h !! l)) ->
  ~ NoDup matches \/ (exists l, l ∈ matches /\ Report.path_of h l = None) ->
  fst (Render.render_matches matches query h)
  = inl (Render.KeyError "path").
Proof.
  intros Hobj Hbad.
  by apply ReportText.render_matches_group_error, ReportText.group_fails.
Qed.

Lemma render_matches_key_error_witness :
  let h : Render.store :=
    {[ 1%nat := Render.match_dict (mkMatch "a.hs" 3 1 "x :: Int");
       2%nat := Render.match_dict (mkMatch "b.hs" 8 5 "x = 1") ]} in
  fst (Render.render_matches [1; 2; 1]%nat "x" h)
  = inl (Render.KeyError "path").
Proof.
  intros h. apply (render_matches_key_error h [1; 2; 1]%nat "x").
  - intros l Hl.
    apply elem_of_cons in Hl as [->|Hl]; [by eexists|].
    apply elem_of_cons in Hl as [->|Hl]; [by eexists|].
    apply elem_of_cons in Hl as [->|Hl]; [by eexists|].
    by apply elem_of_nil in Hl.
  - left. intros Hnd. apply NoDup_cons in Hnd as [Hnin _].
    apply Hnin. apply elem_of_cons. right. by left.
Defined.

(** X16. The report cannot be made twice from the same dicts: once
    [render_matches] has returned its text for a list that is not empty,
    rendering that list again fails with the [KeyError] of
    [pop('path')]. *)
Theorem render_matches_twice_fails (h h' : Render.store)
    (matches : list Render.loc) (query again : string) (text : string) :
  matches <> [] ->
  Render.render_matches matches query h = (inr text, h') ->
  fst (Render.render_matches matches again h')
  = inl (Render.KeyError "path").
Proof.
  intros Hne Hrun.
  assert (Hafter : forall l, l ∈ matches ->
            is_Some (h' !! l) /\ Report.path_of h' l = None).
  { unfold Render.render_matches, mbind, Render.R_bind in Hrun.
    destruct (Render.group matches [] h) as [[e|groups] h1] eqn:Hg; [done|].
    destruct (Render.render_blocks groups h1) as [[e|blocks] h2] eqn:Hb;
      [done|].
    apply RenderFacts.render_blocks_store in Hb as ->.
    injection Hrun as _ <-. by eapply ReportText.group_after. }
  apply ReportText.render_matches_group_error, ReportText.group_fails.
  - intros l Hl. by apply Hafter.
  - destruct matches as [|m rest]; [done|].
    right. exists m. split; [by left|]. apply Hafter. by left.
Qed.

Lemma render_matches_twice_fails_witness :
  let h : Render.store :=
    {[ 1%nat := Render.match_dict (mkMatch "a.hs" 3 1 "x :: Int") ]} in
  fst (Render.render_matches [1%nat] "again"
         (snd (Render.render_matches [1%nat] "x" h)))
  = inl (Render.KeyError "path").
Proof.
  intros h.
  eapply (render_matches_twice_fails h _ [1%nat] "x" "again"); [done|].
  vm_compute. reflexivity.
Defined.

(** ** The editor side *)


Section FoldersFacts.

Variable settings : Settings.
Variable subprocess_run :
  list event -> list string -> string -> option CompletedProcess.



End FoldersFacts.



(** X18. The callback registered for a view runs at most once: the load
    event of a view takes its callback out of the registry and annotates the
    view with the callback's query; the registry entries of other views are
    untouched, and a second load event of the view does nothing. *)
Theorem on_load_async_once (view : Z) (st : Plugin.state) :
  let st1 := snd (Plugin.on_load_async view st) in
  Plugin.callbacks_on_view_loaded st1 !! view = None
  /\ (forall other, other <> view ->
        Plugin.callbacks_on_view_loaded st1 !! other
        = Plugin.callbacks_on_view_loaded st !! other)
  /\ Plugin.ui_log st1
     = Plugin.ui_log st
       ++ match Plugin.callbacks_on_view_loaded st !! view with
          | Some query => [Plugin.AddedRegions view query]
          | None => []
          end
  /\ Plugin.on_load_async view st1 = (inr tt, st1).
Proof.
  unfold Plugin.on_load_async.
  destruct (Plugin.callbacks_on_view_loaded st !! view) as [query|] eqn:Hv;
    cbn.
  - rewrite lookup_delete_eq.
    split; [done|]. split; [|by split].
    intros other Hne. by rewrite lookup_delete_ne.
  - rewrite Hv, app_nil_r. split; [done|]. split; [done|]. by split.
Qed.

Section EditorFacts.

Variable open_file : list Plugin.ui_event -> string -> Z * bool.

(** X19. A file opened for a match is annotated with the query once its view
    is loaded, and only then: if the view is not loading, the regions are
    added at once and the registry is left alone; if it is loading, nothing
    is added, the query is registered for the view, and the load event of
    the view then adds the regions and empties the entry. *)
Theorem annotation_waits_for_load (query : string) (m : Match)
    (transient : bool) (st : Plugin.state) (view : Z) (is_loading : bool) :
  open_file (Plugin.ui_log st) (render_location m) = (view, is_loading) ->
  let st1 := snd (Plugin.open_and_highlight_file open_file query m
                    transient st) in
  let opened := Plugin.OpenedFile (render_location m) transient in
  (is_loading = false ->
     Plugin.ui_log st1
     = Plugin.ui_log st ++ [opened; Plugin.AddedRegions view query]
     /\ Plugin.callbacks_on_view_loaded st1
        = Plugin.callbacks_on_view_loaded st)
  /\ (is_loading = true ->
     Plugin.ui_log st1 = Plugin.ui_log st ++ [opened]
     /\ Plugin.callbacks_on_view_loaded st1 !! view = Some query
     /\ Plugin.ui_log (snd (Plugin.on_load view st1))
        = Plugin.ui_log st ++ [opened; Plugin.AddedRegions view query]
     /\ Plugin.callbacks_on_view_loaded (snd (Plugin.on_load view st1))
          !! view = None).
Proof.
  intros Hopen. unfold Plugin.open_and_highlight_file. rewrite Hopen.
  split; intros ->; cbn.
  - by rewrite <- app_assoc.
  - unfold Plugin.on_load, Plugin.on_load_async. cbn.
    rewrite lookup_insert_eq. cbn.
    by rewrite lookup_delete_eq, <- app_assoc.
Qed.

End EditorFacts.

Lemma annotation_waits_for_load_witness :
  let m := mkMatch "src/a.py" 10 3 "def foo():" in
  let st := Plugin.mkState ∅ [] [] in
  let open_file := fun (_ : list Plugin.ui_event) (_ : string) =>
                     (7, true) in
  Plugin.ui_log
    (snd (Plugin.on_load 7
            (snd (Plugin.open_and_highlight_file open_file "foo" m true st))))
  = [Plugin.OpenedFile "src/a.py:10:3" true; Plugin.AddedRegions 7 "foo"].
Proof.
  intros m st open_file.
  apply (annotation_waits_for_load open_file "foo" m true st 7 true);
    reflexivity.
Defined.

Lemma U_bind_unfold {A B} (c : Plugin.U A) (k : A -> Plugin.U B) st :
  (c ≫= k) st
  = match c st with
    | (inr a, st') => k a st'
    | (inl e, st') => (inl e, st')
    end.
Proof. reflexivity. Qed.

Lemma getitem_nat {A} (l : list A) (i : nat) :
  Plugin.getitem l (Z.of_nat i) = l !! i.
Proof.
  unfold Plugin.getitem.
  destruct (Z.leb_spec 0 (Z.of_nat i)); [|lia]. by rewrite Nat2Z.id.
Qed.




Section PanelFacts.

Variable settings : Settings.
Variable subprocess_run :
  list event -> list string -> string -> option CompletedProcess.
Variable open_file : list Plugin.ui_event -> string -> Z * bool.
Variable views : list Plugin.ui_event -> list Z.
Variable relative_to : string -> string -> option string.
Variable joined : string -> string -> string.
Variable HOME : string.

Lemma first_relative_none path abbrevs :
  Plugin.first_relative relative_to joined path abbrevs = None
  <-> forall prefix abbrev, (prefix, abbrev) ∈ abbrevs ->
        relative_to path prefix = None.
Proof.
  induction abbrevs as [|[p a] abbrevs IH]; cbn [Plugin.first_relative].
  - split; [|done]. intros _ prefix abbrev Hin. by apply elem_of_nil in Hin.
  - destruct (relative_to path p) as [rel|] eqn:Hp.
    + split; [done|]. intros Hall. specialize (Hall p a). rewrite Hp in Hall.
      discriminate Hall. by left.
    + rewrite IH. split.
      * intros Hall prefix abbrev [[= -> ->]|Hin]%elem_of_cons; [done|].
        by eapply Hall.
      * intros Hall prefix abbrev Hin. eapply Hall. by right.
Qed.

Lemma first_relative_app path before rest :
  (forall prefix abbrev, (prefix, abbrev) ∈ before ->
     relative_to path prefix = None) ->
  Plugin.first_relative relative_to joined path (before ++ rest)
  = Plugin.first_relative relative_to joined path rest.
Proof.
  induction before as [|[p a] before IH]; intros Hall; [done|].
  cbn [app Plugin.first_relative]. rewrite (Hall p a) by (by left).
  apply IH. intros prefix abbrev Hin. eapply Hall. by right.
Qed.


(** X22. Every row of the quick panel leads to the action it stands for.
    Chosen at its index, a row of a match makes [on_done] open the location
    of that very match (not as a preview) and then clear the markup, and
    makes [on_highlight] open it as a preview; the last row, the one that
    lists the results, makes [on_done] list them in a view and clear the
    markup, and [on_highlight] do nothing. *)
Theorem quick_panel_row_action (original_view : Z) (query : string)
    (folders : list string) (matches : list Match) (st : Plugin.state)
    (i : nat) (r : Plugin.row) :
  Plugin.display_results relative_to joined HOME folders matches !! i
  = Some r ->
  match r with
  | Plugin.ResultRow _ _ =>
      exists m,
        matches !! i = Some m
        /\ Plugin.on_done open_file views original_view query matches
             (Z.of_nat i) st
           = (Plugin.open_and_highlight_file open_file query m false ;;
              Plugin.clear_markup views) st
        /\ Plugin.on_highlight open_file query matches (Z.of_nat i) st
           = Plugin.open_and_highlight_file open_file query m true st
  | Plugin.TextRow text =>
      text = Plugin.LIST_RESULTS_ROW /\ i = length matches
      /\ Plugin.on_done open_file views original_view query matches
           (Z.of_nat i) st
         = (Plugin.list_in_view query matches ;; Plugin.clear_markup views)
             st
      /\ Plugin.on_highlight open_file query matches (Z.of_nat i) st
         = (inr tt, st)
  end.
Proof.
  unfold Plugin.display_results. intros Hrow.
  apply lookup_app_Some in Hrow as [Hrow|[Hge Hrow]].
  - rewrite list_lookup_fmap in Hrow.
    destruct (matches !! i) as [m|] eqn:Hm; [|done].
    injection Hrow as <-. exists m. split; [done|].
    pose proof (lookup_lt_Some _ _ _ Hm) as Hlt.
    unfold Plugin.on_done, Plugin.on_highlight.
    destruct (Z.eqb_spec (Z.of_nat i) (-1)); [lia|].
    destruct (Z.eqb_spec (Z.of_nat i) (Z.of_nat (length matches))); [lia|].
    cbn [orb]. by rewrite getitem_nat, Hm.
  - rewrite length_map in Hge, Hrow.
    destruct (i - length matches)%nat as [|k] eqn:Hk; [|by destruct k].
    injection Hrow as <-. assert (i = length matches) as -> by lia.
    split; [done|]. split; [done|].
    unfold Plugin.on_done, Plugin.on_highlight.
    destruct (Z.eqb_spec (Z.of_nat (length matches)) (-1)); [lia|].
    by rewrite Z.eqb_refl.
Qed.

Lemma search_blank query folders log :
  Py.every Py.isspace query = true ->
  search_and_display_matches settings subprocess_run "plain" query folders
    log = (inr [], log)
  /\ search_and_display_matches settings subprocess_run "haskell" query
       folders log = (inl EmptyQueryError, log).
Proof.
  intros Hblank%strip_blank. unfold search_and_display_matches.
  cbn [String.eqb Ascii.eqb Bool.eqb]. rewrite !M_bind_unfold.
  rewrite search_empty by done.
  unfold search_for_haskell_defns. rewrite M_bind_unfold.
  unfold lift, haskell_defn_queries. by rewrite Hblank.
Qed.

(** X23. An immediate search on a selection that is only blanks, without
    line feed, in a window with folders: in plain mode the engine is not run
    and the dialog says there are no results; in haskell mode the search
    fails with the error of the empty query and no dialog is shown. *)
Theorem immediate_search_on_blanks (window : Plugin.Window)
    (selected_text : string) (st : Plugin.state) :
  Plugin.window_folders window <> [] ->
  selected_text <> EmptyString ->
  Py.every Py.isspace selected_text = true ->
  Py.count Py.LF selected_text = O ->
  Plugin.run settings subprocess_run open_file relative_to joined HOME
    window selected_text true "plain" st
  = (inr tt,
     Plugin.mkState (Plugin.callbacks_on_view_loaded st)
       (Plugin.ui_log st ++ [Plugin.MessageDialog "No results"])
       (Plugin.engine_log st))
  /\ Plugin.run settings subprocess_run open_file relative_to joined HOME
       window selected_text true "haskell" st
     = (inl (Plugin.SearchError EmptyQueryError), st).
Proof.
  intros Hfolders Hsel Hblank Hlf.
  unfold Plugin.run, Plugin.initial_query.
  apply is_empty_false in Hsel. rewrite Hsel, Hlf. cbn [negb andb Nat.eqb].
  rewrite Hsel. unfold Plugin.search_and_display.
  rewrite !U_bind_unfold. unfold Plugin.search_folders_for_window.
  destruct (Plugin.window_folders window) as [|f fs] eqn:Hf; [done|].
  cbn [mret Plugin.U_ret]. rewrite !U_bind_unfold. unfold Plugin.pipeline.
  destruct (search_blank selected_text (f :: fs) (Plugin.engine_log st)
              Hblank) as [-> ->].
  split; [done|]. by destruct st.
Qed.

(** X24. A search mode other than plain and haskell, in a window with
    folders: the error dialog names the mode, no process is run, and the
    command then fails on the matches it never assigned, so neither results
    nor the dialog for no results are shown. *)
Theorem unknown_search_mode (window : Plugin.Window)
    (search_mode query : string) (st : Plugin.state) :
  Plugin.window_folders window <> [] ->
  search_mode <> "plain" -> search_mode <> "haskell" ->
  Plugin.search_and_display settings subprocess_run open_file relative_to
    joined HOME window search_mode query st
  = (inl (Plugin.SearchError UnboundLocalError),
     Plugin.mkState (Plugin.callbacks_on_view_loaded st) (Plugin.ui_log st)
       (Plugin.engine_log st
        ++ [ErrorMessage ("Unknown search mode: " +:+ search_mode)])).
Proof.
  intros Hfolders Hplain Hhaskell. unfold Plugin.search_and_display.
  rewrite !U_bind_unfold. unfold Plugin.search_folders_for_window.
  destruct (Plugin.window_folders window) as [|f fs] eqn:Hf; [done|].
  cbn [mret Plugin.U_ret]. rewrite !U_bind_unfold. unfold Plugin.pipeline.
  unfold search_and_display_matches.
  apply String.eqb_neq in Hplain, Hhaskell. by rewrite Hplain, Hhaskell.
Qed.

End PanelFacts.

(** ** Paths *)

Module PathFacts.

Import PurePosixPath.

Lemma filter_Forall {A} (f : A -> bool) (P : A -> Prop) (l : list A) :
  Forall P l -> Forall (fun x => f x = true /\ P x) (List.filter f l).
Proof.
  induction 1 as [|x l Hx _ IH]; cbn [List.filter]; [constructor|].
  destruct (f x) eqn:Hf; [by constructor | done].
Qed.

Lemma filter_id {A} (f : A -> bool) (l : list A) :
  Forall (fun x => f x = true) l -> List.filter f l = l.
Proof.
  induction 1 as [|x l Hx _ IH]; cbn [List.filter]; [done|].
  by rewrite Hx, IH.
Qed.

Lemma split_all_join sep ls :
  ls <> [] -> Forall (fun l => Py.count sep l = O) ls ->
  Py.split sep None (Py.join (String sep EmptyString) ls) = ls.
Proof.
  induction ls as [|l [|l2 rest] IH]; [done|..]; intros _ Hall.
  - apply Forall_cons in Hall as [Hl _]. by apply split_no_sep.
  - apply Forall_cons in Hall as [Hl Hrest].
    rewrite join_cons, append_cons.
    change (EmptyString +:+ ?s) with s.
    rewrite split_all_prefix by done. f_equal. by apply IH.
Qed.

Lemma parse_names s : Forall is_name (parts (parse s)).
Proof.
  unfold parse. destruct (splitroot s) as [r rel]. cbn [parts].
  apply filter_Forall, split_all_no_sep.
Qed.

Lemma strip_prefix_spec prefix l rel :
  strip_prefix prefix l = Some rel <-> l = prefix ++ rel.
Proof.
  revert l. induction prefix as [|x prefix IH]; intros l; cbn [strip_prefix app].
  - split; [by intros [= ->] | by intros ->].
  - destruct l as [|y l]; [done|].
    destruct (String.eqb_spec x y) as [->|Hne].
    + rewrite IH. split; [by intros -> | by intros [= ->]].
    + split; [done | by intros [= -> _]].
Qed.

Lemma relative_to_spec p other rel :
  relative_to p other = Some rel
  <-> root p = root other
      /\ parts p = parts other ++ parts rel
      /\ root rel = EmptyString.
Proof.
  unfold relative_to.
  destruct (String.eqb_spec (root p) (root other)) as [Hroot|Hroot].
  - destruct (strip_prefix (parts other) (parts p)) as [l|] eqn:Hl.
    + apply strip_prefix_spec in Hl. cbn [fmap option_fmap option_map].
      split.
      * by intros [= <-].
      * intros (_ & Hparts & Hrel). destruct rel as [r ps].
        cbn [root parts] in *. subst r. rewrite Hl in Hparts.
        by apply app_inv_head in Hparts as ->.
    + cbn [fmap option_fmap option_map]. split; [done|].
      intros (_ & Hparts & _). apply strip_prefix_spec in Hparts.
      by rewrite Hparts in Hl.
  - split; [done | by intros [? _]].
Qed.

Lemma join_name_head x rest :
  is_name x ->
  exists c t, Py.join "/" (x :: rest) = String c t /\ is_sep c = false.
Proof.
  intros [Hpart Hsep]. destruct x as [|c x]; [done|].
  exists c. cbn [Py.count] in Hsep. unfold is_sep.
  destruct (Ascii.eqb c "/"); [done|].
  destruct rest as [|y rest].
  - by exists x.
  - rewrite join_cons, append_cons. by eexists.
Qed.

(** A relative path of names is written as its names joined by [/], and as
    [.] when it has none. *)
Lemma str_relative rel :
  root rel = EmptyString -> Forall is_name (parts rel) ->
  str rel = match parts rel with
            | [] => "."
            | names => Py.join "/" names
            end.
Proof.
  unfold str. intros -> Hnames. change (EmptyString +:+ ?s) with s.
  destruct (parts rel) as [|x l]; [done|].
  apply Forall_cons in Hnames as [Hx _].
  destruct (join_name_head x l Hx) as (c & t & -> & _). done.
Qed.

(** The text of a relative path of names reads back as that path. *)
Lemma parse_str p :
  root p = EmptyString -> Forall is_name (parts p) -> parse (str p) = p.
Proof.
  destruct p as [r names]. cbn [root parts]. intros -> Hnames.
  rewrite str_relative by done. cbn [parts].
  destruct names as [|x rest]; [done|].
  pose proof Hnames as [Hx _]%Forall_cons.
  destruct (join_name_head x rest Hx) as (c & t & Hjoin & Hc).
  unfold parse, splitroot. rewrite Hjoin, Hc, <- Hjoin.
  rewrite split_all_join; [|done|].
  - rewrite filter_id; [done|]. eapply Forall_impl; [exact Hnames|].
    by intros y [Hy _].
  - eapply Forall_impl; [exact Hnames|]. by intros y [_ Hy].
Qed.

Lemma posix_relative_to_Some path prefix rel :
  relative_to (parse path) (parse prefix) = Some rel ->
  Plugin.posix_relative_to path prefix = Some (str rel)
  /\ root rel = EmptyString /\ Forall is_name (parts rel).
Proof.
  intros Hrel. unfold Plugin.posix_relative_to. rewrite Hrel.
  split; [done|]. apply relative_to_spec in Hrel as (_ & Hparts & Hroot).
  split; [done|]. pose proof (parse_names path) as Hnames.
  rewrite Hparts in Hnames. by apply Forall_app in Hnames as [_ ?].
Qed.

Lemma posix_relative_to_None path prefix :
  Plugin.posix_relative_to path prefix = None
  <-> relative_to (parse path) (parse prefix) = None.
Proof.
  unfold Plugin.posix_relative_to.
  by destruct (relative_to (parse path) (parse prefix)).
Qed.

Lemma posix_joined_dot rel :
  root rel = EmptyString -> Forall is_name (parts rel) ->
  Plugin.posix_joined "." (str rel) = str rel.
Proof.
  intros Hroot Hnames. unfold Plugin.posix_joined.
  rewrite parse_str by done. unfold rtruediv. rewrite Hroot.
  cbn [Py.is_empty]. destruct rel as [r names]. cbn [root parts] in *.
  by subst r.
Qed.

Lemma posix_joined_tilde rel :
  root rel = EmptyString -> Forall is_name (parts rel) ->
  Plugin.posix_joined "~" (str rel) = Py.join "/" ("~" :: parts rel).
Proof.
  intros Hroot Hnames. unfold Plugin.posix_joined.
  rewrite parse_str by done. unfold rtruediv. rewrite Hroot.
  cbn [Py.is_empty]. change (parse "~") with (mk EmptyString ["~"]).
  cbn [root parts app]. rewrite str_relative; [done|done|].
  constructor; [by split|done].
Qed.

End PathFacts.

(** X20. On POSIX paths, [shorten_path] gives the path as seen from the
    first of the folders it lies under, written without [./] in front (and
    as [.] when the path is that folder); when it lies under no folder but
    under the home directory, it gives the path from [~]; and it gives
    [None] exactly when the path lies under none of them.  To lie under a
    prefix is to have its root and to begin with its parts, those being what
    pathlib keeps of a path: the pieces between slashes that are neither
    empty nor [.]. *)
Theorem shorten_path_first_prefix (HOME path : string)
    (heres : list string) :
  let under := fun prefix : string =>
    PurePosixPath.relative_to (PurePosixPath.parse path)
      (PurePosixPath.parse prefix) in
  let shortened :=
    Plugin.shorten_path Plugin.posix_relative_to Plugin.posix_joined HOME
      path heres in
  (forall prefix rel,
     under prefix = Some rel
     <-> PurePosixPath.root (PurePosixPath.parse path)
         = PurePosixPath.root (PurePosixPath.parse prefix)
         /\ PurePosixPath.parts (PurePosixPath.parse path)
            = PurePosixPath.parts (PurePosixPath.parse prefix)
              ++ PurePosixPath.parts rel
         /\ PurePosixPath.root rel = EmptyString)
  /\ (forall before here after rel,
        heres = before ++ here :: after ->
        (forall h, h ∈ before -> under h = None) ->
        under here = Some rel ->
        shortened
        = Some match PurePosixPath.parts rel with
               | [] => "."
               | names => Py.join "/" names
               end)
  /\ (forall rel,
        (forall h, h ∈ heres -> under h = None) ->
        under HOME = Some rel ->
        shortened = Some (Py.join "/" ("~" :: PurePosixPath.parts rel)))
  /\ (shortened = None
      <-> (forall h, h ∈ heres -> under h = None) /\ under HOME = None).
Proof.
  intros under shortened. unfold shortened, Plugin.shorten_path.
  assert (Hmap : forall l prefix abbrev,
            (prefix, abbrev) ∈ map (fun here : string => (here, ".")) l ->
            prefix ∈ l).
  { intros l prefix abbrev (h & [= -> ->] & Hin)%list_elem_of_fmap. done. }
  split; [intros prefix rel; apply PathFacts.relative_to_spec|].
  split; [|split].
  - intros before here after rel -> Hbefore Hhere.
    apply PathFacts.posix_relative_to_Some in Hhere
      as (Hhere & Hroot & Hnames).
    rewrite map_app, <- app_assoc. cbn [map app].
    rewrite first_relative_app.
    + cbn [Plugin.first_relative]. rewrite Hhere.
      rewrite PathFacts.posix_joined_dot by done.
      by rewrite PathFacts.str_relative.
    + intros prefix abbrev Hin.
      by eapply PathFacts.posix_relative_to_None, Hbefore, Hmap.
  - intros rel Hnone Hhome.
    apply PathFacts.posix_relative_to_Some in Hhome
      as (Hhome & Hroot & Hnames).
    rewrite first_relative_app.
    + cbn [Plugin.first_relative]. rewrite Hhome.
      by rewrite PathFacts.posix_joined_tilde.
    + intros prefix abbrev Hin.
      by eapply PathFacts.posix_relative_to_None, Hnone, Hmap.
  - rewrite first_relative_none. split.
    + intros Hall. split.
      * intros h Hh. apply PathFacts.posix_relative_to_None.
        apply (Hall h "."). apply elem_of_app. left.
        apply list_elem_of_fmap. by exists h.
      * apply PathFacts.posix_relative_to_None.
        apply (Hall HOME "~"). apply elem_of_app. right. by left.
    + intros [Hheres Hhome] prefix abbrev [Hin|Hin]%elem_of_app.
      * by eapply PathFacts.posix_relative_to_None, Hheres, Hmap.
      * apply list_elem_of_singleton in Hin. injection Hin as -> ->.
        by apply PathFacts.posix_relative_to_None.
Qed.

Lemma shorten_path_first_prefix_witness :
  Plugin.shorten_path Plugin.posix_relative_to Plugin.posix_joined "/home/u"
    "/w/src/a.py:10:3" ["/v"; "/w/"; "/"]
  = Some "src/a.py:10:3"
  /\ Plugin.shorten_path Plugin.posix_relative_to Plugin.posix_joined
       "/home/u" "/home/u/notes/a.hs:1:1" ["/w"]
     = Some "~/notes/a.hs:1:1".
Proof.
  split.
  - apply (proj1 (proj2 (shorten_path_first_prefix "/home/u"
                           "/w/src/a.py:10:3" ["/v"; "/w/"; "/"]))
             ["/v"] "/w/" ["/"]
             (PurePosixPath.mk EmptyString ["src"; "a.py:10:3"]));
      [reflexivity | | reflexivity].
    intros h Hh. apply list_elem_of_singleton in Hh as ->. reflexivity.
  - apply (proj1 (proj2 (proj2 (shorten_path_first_prefix "/home/u"
                                  "/home/u/notes/a.hs:1:1" ["/w"])))
             (PurePosixPath.mk EmptyString ["notes"; "a.hs:1:1"]));
      [| reflexivity].
    intros h Hh. apply list_elem_of_singleton in Hh as ->. reflexivity.
Defined.


(** ** Instances of the editor-side properties *)

Lemma quick_panel_row_action_witness :
  let m := mkMatch "/w/src/a.py" 10 3 "  def foo():" in
  let relative_to := Plugin.posix_relative_to in
  let joined := Plugin.posix_joined in
  let open_file := fun (_ : list Plugin.ui_event) (_ : string) =>
                     (7, false) in
  let views := fun (_ : list Plugin.ui_event) => [7; 8] in
  let st := Plugin.mkState ∅ [] [] in
  Plugin.display_results relative_to joined "/home/u" ["/w"] [m] !! 1%nat
  = Some (Plugin.TextRow Plugin.LIST_RESULTS_ROW)
  /\ Plugin.on_done open_file views 1 "foo" [m] 1 st
     = (inr tt,
        Plugin.mkState ∅
          [Plugin.ListedInView [m] "foo"; Plugin.ErasedRegions 7;
           Plugin.ErasedRegions 8] []).
Proof.
  intros m relative_to joined open_file views st.
  split; [reflexivity|].
  pose proof (quick_panel_row_action open_file views relative_to joined
                "/home/u" 1 "foo" ["/w"] [m] st 1
                (Plugin.TextRow Plugin.LIST_RESULTS_ROW) eq_refl)
    as (_ & _ & Hdone & _).
  etrans; [exact Hdone | reflexivity].
Defined.

Lemma immediate_search_on_blanks_witness :
  let settings := mkSettings "ripgrep" "rg" ["--vimgrep"] false in
  let subprocess_run :=
    fun (_ : list event) (_ : list string) (_ : string) =>
      Some (mkCompleted 0 "/w/a.hs:1:1:x" EmptyString) in
  let open_file := fun (_ : list Plugin.ui_event) (_ : string) =>
                     (7, false) in
  let relative_to := Plugin.posix_relative_to in
  let joined := Plugin.posix_joined in
  let window := Plugin.mkWindow ["/w"] None in
  let st := Plugin.mkState ∅ [] [] in
  Plugin.run settings subprocess_run open_file relative_to joined "/home/u"
    window "   " true "plain" st
  = (inr tt, Plugin.mkState ∅ [Plugin.MessageDialog "No results"] [])
  /\ Plugin.run settings subprocess_run open_file relative_to joined
       "/home/u" window "   " true "haskell" st
     = (inl (Plugin.SearchError EmptyQueryError), st).
Proof.
  intros settings subprocess_run open_file relative_to joined window st.
  apply (immediate_search_on_blanks settings subprocess_run open_file
           relative_to joined "/home/u" window "   " st);
    [discriminate | discriminate | reflexivity | reflexivity].
Defined.

Lemma unknown_search_mode_witness :
  let settings := mkSettings "ripgrep" "rg" ["--vimgrep"] false in
  let subprocess_run :=
    fun (_ : list event) (_ : list string) (_ : string) =>
      Some (mkCompleted 0 "/w/a.hs:1:1:x" EmptyString) in
  let open_file := fun (_ : list Plugin.ui_event) (_ : string) =>
                     (7, false) in
  let relative_to := Plugin.posix_relative_to in
  let joined := Plugin.posix_joined in
  let window := Plugin.mkWindow ["/w"] None in
  let st := Plugin.mkState ∅ [] [] in
  Plugin.search_and_display settings subprocess_run open_file relative_to
    joined "/home/u" window "regex" "foo" st
  = (inl (Plugin.SearchError UnboundLocalError),
     Plugin.mkState ∅ [] [ErrorMessage "Unknown search mode: regex"]).
Proof.
  intros settings subprocess_run open_file relative_to joined window st.
  apply (unknown_search_mode settings subprocess_run open_file relative_to
           joined "/home/u" window "regex" "foo" st); discriminate.
Defined.

Lemma searches_run_few_processes_witness :
  let settings := mkSettings "ripgrep" "rg" ["--vimgrep"] false in
  let subprocess_run :=
    fun (_ : list event) (_ : list string) (_ : string) =>
      Some (mkCompleted 0 "/w/a.hs:1:1:data Foo = Foo " EmptyString) in
  let result := search_for_haskell_defns settings subprocess_run "Foo"
                  ["/w"] [] in
  (exists ms, fst result = inr ms /\ length ms = 4%nat)
  /\ runs (snd result) = 4%nat.
Proof.
  intros settings subprocess_run result.
  split; [eexists; split; reflexivity|].
  destruct (searches_run_few_processes settings subprocess_run "Foo" ["/w"]
              [])
    as [_ (events & Hevents & _ & Hplan)].
  destruct (fst result) as [e|ms] eqn:Hresult; [discriminate Hresult|].
  destruct (Hplan ms Hresult) as (plan & Hqueries & Hruns & _).
  unfold result. rewrite Hevents. cbn [app]. rewrite Hruns.
  vm_compute in Hqueries. injection Hqueries as <-. reflexivity.
Defined.
